(** * HiNet translators and the sender node of MDP, embedded in Rocq

    Sources:
    - [mdp/hinet/hinet_translator.py]: the generic translator
      [HiNetTranslator], the line decorator [NewlineWriteFile] and the HTML
      translator [HiNetHTMLTranslator];
    - [bimdp/nodes/miscnodes.py]: [SenderBiNode].

    Python methods become functions in a state-and-exception monad; the
    class hierarchy is kept by giving every overridable method the
    dispatcher [_translate_node] (Python's [self._translate_node]) as an
    argument.  The definitions come first, the proofs after them. *)

From Stdlib Require Import ZArith String Ascii List Lia DecimalString.
From stdpp Require Import base option list gmap strings.

Local Open Scope string_scope.
Local Open Scope list_scope.
Set Warnings "-register-all,-notation-for-abbreviation".

(** ** State and exceptions *)

Inductive exn : Type :=
| AttributeError (what : string).

Inductive outcome (A : Type) : Type :=
| Returns (a : A)
| Raises (e : exn).
Arguments Returns {A} a.
Arguments Raises {A} e.

Definition M (S A : Type) : Type := S -> outcome A * S.

Section MonadOps.
Context {S : Type}.

Definition ret {A} (a : A) : M S A := fun s => (Returns a, s).

Definition bind {A B} (m : M S A) (k : A -> M S B) : M S B :=
  fun s => match m s with
           | (Returns a, s') => k a s'
           | (Raises e, s') => (Raises e, s')
           end.

Definition raise {A} (e : exn) : M S A := fun s => (Raises e, s).
Definition get : M S S := fun s => (Returns s, s).
Definition modify (f : S -> S) : M S unit := fun s => (Returns tt, f s).

(** [for x in xs: body(x)] *)
Definition for_ {A} (body : A -> M S unit) : list A -> M S unit :=
  fix loop (xs : list A) : M S unit :=
    match xs with
    | [] => ret tt
    | x :: xs' => bind (body x) (fun _ => loop xs')
    end.

(** [acc = []; for x in xs: acc.append(f(x))] *)
Definition for_append {A B} (f : A -> M S B) : list B -> list A -> M S (list B) :=
  fix loop (acc : list B) (xs : list A) : M S (list B) :=
    match xs with
    | [] => ret acc
    | x :: xs' => bind (f x) (fun y => loop (acc ++ [y]) xs')
    end.
End MonadOps.

Notation "x <- c1 ;; c2" := (bind c1 (fun x => c2))
  (at level 100, c1 at next level, right associativity).
Notation "c1 ;;; c2" := (bind c1 (fun _ => c2))
  (at level 100, right associativity).

(** ** Graph model

    The node classes live in [mdp] and [mdp.hinet], outside the two source
    files; the translators read the fields below. *)

Record Attrs : Type := {
  oid : nat;               (* object identity, Python's id() *)
  classes : list string;   (* the classes the object is an instance of *)
  node_str : string;       (* str(node) *)
  input_dim : Z;           (* the dimensions are set: both are integers *)
  output_dim : Z
}.

(** Modelled from the spec: the node classes are not in the source files.
    A CloneLayer owns one prototype [node] and a repetition count; its
    [nodes] are that same prototype, [count] times.  [Foreign] stands for an
    object of any class outside the four variants. *)
Inductive Node : Type :=
| StandardNode (a : Attrs)
| FlowNode (a : Attrs) (_flow : list Node)
| Layer (a : Attrs) (nodes : list Node)
| CloneLayer (a : Attrs) (node : Node) (count : nat)
| Foreign (a : Attrs).

(** A Flow iterates over its list of nodes ([flow.flow]). *)
Definition Flow : Type := list Node.

Definition attrs (n : Node) : Attrs :=
  match n with
  | StandardNode a | FlowNode a _ | Layer a _ | CloneLayer a _ _ | Foreign a => a
  end.

(** [clonelayer.nodes] *)
Definition clone_nodes (node : Node) (count : nat) : list Node := repeat node count.

(** [isinstance(node, cls)] for the classes of the parameter registry *)
Definition isinstance (node : Node) (cls : string) : bool :=
  existsb (String.eqb cls) (classes (attrs node)).

(** The variants of the closed set of the data model. *)
Definition in_closed_set (n : Node) : bool :=
  match n with
  | Foreign _ => false
  | _ => true
  end.

Definition is_standard (n : Node) : bool :=
  match n with
  | StandardNode _ => true
  | _ => false
  end.

(** Induction over nodes that reaches the members of flow nodes and layers. *)
Section NodeInd.
Variable P : Node -> Prop.
Hypothesis Hstd : forall a, P (StandardNode a).
Hypothesis Hflow : forall a fl, Forall P fl -> P (FlowNode a fl).
Hypothesis Hlayer : forall a ns, Forall P ns -> P (Layer a ns).
Hypothesis Hclone : forall a n c, P n -> P (CloneLayer a n c).
Hypothesis Hforeign : forall a, P (Foreign a).

Fixpoint Node_nested_ind (n : Node) : P n :=
  let all := fix all (l : list Node) : Forall P l :=
               match l with
               | [] => @List.Forall_nil Node P
               | x :: l' => @List.Forall_cons Node P x l' (Node_nested_ind x) (all l')
               end in
  match n with
  | StandardNode a => Hstd a
  | FlowNode a fl => Hflow a fl (all fl)
  | Layer a ns => Hlayer a ns (all ns)
  | CloneLayer a p c => Hclone a p c (Node_nested_ind p)
  | Foreign a => Hforeign a
  end.
End NodeInd.

(** ** The generic translator, class HiNetTranslator *)

(** What a translation is: the node itself, or a Python list. *)
Inductive Translation : Type :=
| TNode (node : Node)
| TList (items : list Translation).

Module HiNetTranslator.

(** The generic translator has no fields.  Its state here is the log of
    the arguments of the [_translate_node] calls, oldest first: the call
    counter of a mock node. *)
Definition Calls : Type := list Node.

Definition T : Type -> Type := M Calls.

Definition log_call (node : Node) : T unit := modify (fun cs => cs ++ [node]).

Section Methods.
(** [self._translate_node] *)
Variable self_translate_node : Node -> T Translation.

Definition _translate_flow (flow : Flow) : T (list Translation) :=
  for_append self_translate_node [] flow.

Definition _translate_flownode (_flow : Flow) : T (list Translation) :=
  for_append self_translate_node [] _flow.

Definition _translate_layer (nodes : list Node) : T (list Translation) :=
  for_append self_translate_node [] nodes.

Definition _translate_clonelayer (node : Node) (count : nat) : T (list Translation) :=
  translated_node <- self_translate_node node ;;
  ret (repeat translated_node (length (clone_nodes node count))).

Definition _translate_standard_node (node : Node) : T Translation :=
  ret (TNode node).
End Methods.

Fixpoint _translate_node (node : Node) : T Translation :=
  log_call node ;;;
  match node with
  | FlowNode _ _flow =>
      l <- _translate_flownode _translate_node _flow ;; ret (TList l)
  | CloneLayer _ p count =>
      l <- _translate_clonelayer _translate_node p count ;; ret (TList l)
  | Layer _ nodes =>
      l <- _translate_layer _translate_node nodes ;; ret (TList l)
  | StandardNode _ | Foreign _ => _translate_standard_node node
  end.

(** [translate(flow)]: the entry point, on a fresh call log. *)
Definition translate (flow : Flow) : outcome (list Translation) * Calls :=
  _translate_flow _translate_node flow [].

End HiNetTranslator.

(** ** What the generic translator computes *)

(** The value the generic translation of a node has. *)
Fixpoint translation_of (n : Node) : Translation :=
  match n with
  | StandardNode _ | Foreign _ => TNode n
  | FlowNode _ fl => TList (map translation_of fl)
  | Layer _ ns => TList (map translation_of ns)
  | CloneLayer _ p c => TList (repeat (translation_of p) c)
  end.

(** The nodes one traversal hands to [_translate_node], in call order. *)
Fixpoint visits (n : Node) : list Node :=
  n :: match n with
       | FlowNode _ fl => concat (map visits fl)
       | Layer _ ns => concat (map visits ns)
       | CloneLayer _ p _ => visits p
       | StandardNode _ | Foreign _ => []
       end.

Fixpoint node_size (n : Node) : nat :=
  match n with
  | FlowNode _ fl => Datatypes.S (list_sum (map node_size fl))
  | Layer _ ns => Datatypes.S (list_sum (map node_size ns))
  | CloneLayer _ p _ => Datatypes.S (node_size p)
  | StandardNode _ | Foreign _ => 1
  end.

(** ** HTML text

    What is written to the file is HTML.  It is kept as a sequence of
    tokens, so that the tags the translator writes stay apart from the
    character data that nodes and parameter functions supply; [render]
    gives the characters. *)

Inductive token : Type :=
| STag (name : string) (class : option string)   (* <name> or <name class=...> *)
| ETag (name : string)                           (* </name> *)
| Br                                             (* <br> *)
| Text (s : string).                             (* character data, written as is *)

Definition html : Type := list token.

Definition dquote : string := String (ascii_of_nat 34) EmptyString.
Definition newline : string := String (ascii_of_nat 10) EmptyString.

Definition render_token (t : token) : string :=
  match t with
  | STag name None => "<" ++ name ++ ">"
  | STag name (Some c) => "<" ++ name ++ " class=" ++ dquote ++ c ++ dquote ++ ">"
  | ETag name => "</" ++ name ++ ">"
  | Br => "<br>"
  | Text s => s
  end.

Definition render (h : html) : string := String.concat EmptyString (map render_token h).

(** ['%d' % z] *)
Definition fmt_d (z : Z) : string := NilZero.string_of_int (Z.to_int z).

(** [" <br>\n".join(lines)] *)
Fixpoint join_br (lines : list string) : html :=
  match lines with
  | [] => []
  | [line] => [Text line]
  | line :: rest => Text line :: Text " " :: Br :: Text newline :: join_br rest
  end.

Definition tr_td : html := [STag "tr" None; STag "td" None].
Definition td_tr_end : html := [ETag "td"; ETag "tr"].

(** ** The HTML translator, class HiNetHTMLTranslator *)

(** File objects are references into a store of files; a file holds the
    arguments of the [write] calls it received, oldest first. *)
Definition fd : Type := nat.

Record NewlineWriteFile : Type := { file_obj : fd }.

(** (node class type, write function) *)
Definition registry : Type := list (string * (Node -> list string)).

Record State : Type := {
  _node_param_translators : registry;
  _html_file : option NewlineWriteFile;
  files : gmap fd (list html)
}.

Definition set_html_file (f : option NewlineWriteFile) (w : State) : State :=
  {| _node_param_translators := _node_param_translators w;
     _html_file := f;
     files := files w |}.

Definition set_node_param_translators (r : registry) (w : State) : State :=
  {| _node_param_translators := r;
     _html_file := _html_file w;
     files := files w |}.

Definition set_files (fs : gmap fd (list html)) (w : State) : State :=
  {| _node_param_translators := _node_param_translators w;
     _html_file := _html_file w;
     files := fs |}.

(** [file_obj.write(h)] *)
Definition file_write (fobj : fd) (h : html) : M State unit :=
  modify (fun w => set_files (<[fobj := files w !!! fobj ++ [h]]> (files w)) w).

Module NewlineWriteFileM.
Definition write (self : NewlineWriteFile) (str_obj : html) : M State unit :=
  file_write (file_obj self) (str_obj ++ [Text newline]).
End NewlineWriteFileM.

(** The first argument of the two environment helpers: a node, or the
    flow itself, which has no dimensions. *)
Inductive EnvOwner : Type :=
| OfNode (n : Node)
| OfFlow (fl : Flow).

Module HiNetHTMLTranslator.

Definition T : Type -> Type := M State.

(** [HiNetHTMLTranslator(node_param_translators)], with the files of the
    surrounding program. *)
Definition __init__ (node_param_translators : registry)
    (fs : gmap fd (list html)) : State :=
  {| _node_param_translators := node_param_translators;
     _html_file := None;
     files := fs |}.

(** [f.write(h)] where [f] was read from [self._html_file] *)
Definition fwrite (f : option NewlineWriteFile) (h : html) : T unit :=
  match f with
  | Some nwf => NewlineWriteFileM.write nwf h
  | None => raise (AttributeError "write")
  end.

Definition get_html_file : T (option NewlineWriteFile) :=
  w <- get ;; ret (_html_file w).

Definition input_dim_of (o : EnvOwner) : T Z :=
  match o with
  | OfNode n => ret (input_dim (attrs n))
  | OfFlow _ => raise (AttributeError "input_dim")
  end.

Definition output_dim_of (o : EnvOwner) : T Z :=
  match o with
  | OfNode n => ret (output_dim (attrs n))
  | OfFlow _ => raise (AttributeError "output_dim")
  end.

(** [type_id=="flow" or type_id=="flownode"] *)
Definition is_wrapper (type_id : string) : bool :=
  String.eqb type_id "flow" || String.eqb type_id "flownode".

Definition add_node_param_translators (more : registry) : T unit :=
  modify (fun w =>
    set_node_param_translators (_node_param_translators w ++ more) w).

Definition _open_node_env (node : EnvOwner) (type_id : string) : T unit :=
  f <- get_html_file ;;
  fwrite f [STag "table" (Some type_id)] ;;;
  (if negb (is_wrapper type_id)
   then d <- input_dim_of node ;;
        fwrite f [STag "tr" None; STag "td" (Some "dim");
                  Text ("in-dim: " ++ fmt_d d); ETag "td"; ETag "tr"]
   else ret tt) ;;;
  fwrite f tr_td ;;;
  fwrite f [STag "table" (Some "nodestruct")].

Definition _close_node_env (node : EnvOwner) (type_id : string) : T unit :=
  f <- get_html_file ;;
  fwrite f [ETag "table"] ;;;
  fwrite f td_tr_end ;;;
  (if negb (is_wrapper type_id)
   then d <- output_dim_of node ;;
        fwrite f [STag "tr" None; STag "td" (Some "dim");
                  Text ("out-dim: " ++ fmt_d d)] ;;;
        fwrite f td_tr_end
   else ret tt) ;;;
  fwrite f [ETag "table"].

(** The reversed scan of the registry, leaving at the first match. *)
Fixpoint scan_param_translators (f : option NewlineWriteFile) (node : Node)
    (reversed : registry) : T unit :=
  match reversed with
  | [] => ret tt
  | node_param_trans :: rest =>
      if isinstance node (fst node_param_trans)
      then fwrite f (join_br (snd node_param_trans node))
      else scan_param_translators f node rest
  end.

Section Methods.
(** [self._translate_node] *)
Variable self_translate_node : Node -> T unit.

Definition _translate_flow (flow : Flow) : T unit :=
  f <- get_html_file ;;
  _open_node_env (OfFlow flow) "flow" ;;;
  for_ (fun node =>
          fwrite f tr_td ;;;
          self_translate_node node ;;;
          fwrite f td_tr_end) flow ;;;
  fwrite f td_tr_end ;;;
  _close_node_env (OfFlow flow) "flow".

Definition _translate_flownode (flownode : Node) (_flow : Flow) : T unit :=
  f <- get_html_file ;;
  _open_node_env (OfNode flownode) "flownode" ;;;
  for_ (fun node =>
          fwrite f tr_td ;;;
          self_translate_node node ;;;
          fwrite f td_tr_end) _flow ;;;
  _close_node_env (OfNode flownode) "flownode".

Definition _translate_layer (layer : Node) (nodes : list Node) : T unit :=
  f <- get_html_file ;;
  _open_node_env (OfNode layer) "layer" ;;;
  fwrite f [STag "tr" None] ;;;
  for_ (fun node =>
          fwrite f [STag "td" None] ;;;
          self_translate_node node ;;;
          fwrite f [ETag "td"]) nodes ;;;
  fwrite f [ETag "tr"] ;;;
  _close_node_env (OfNode layer) "node".

Definition _translate_clonelayer (clonelayer : Node) (node : Node) (count : nat)
    : T unit :=
  f <- get_html_file ;;
  _open_node_env (OfNode clonelayer) "layer" ;;;
  fwrite f [STag "tr" None; STag "td" (Some "nodename")] ;;;
  fwrite f [Text (node_str (attrs clonelayer)); Br; Br] ;;;
  fwrite f [Text (fmt_d (Z.of_nat (length (clone_nodes node count)))
                  ++ " repetitions")] ;;;
  fwrite f [ETag "td"] ;;;
  fwrite f [STag "td" None] ;;;
  self_translate_node node ;;;
  fwrite f td_tr_end ;;;
  _close_node_env (OfNode clonelayer) "node".

Definition _translate_standard_node (node : Node) : T unit :=
  f <- get_html_file ;;
  _open_node_env (OfNode node) "node" ;;;
  fwrite f [STag "tr" None; STag "td" (Some "nodename")] ;;;
  fwrite f [Text (node_str (attrs node))] ;;;
  fwrite f td_tr_end ;;;
  fwrite f [STag "tr" None; STag "td" (Some "nodeparams")] ;;;
  (w <- get ;;
   scan_param_translators f node (rev (_node_param_translators w))) ;;;
  fwrite f td_tr_end ;;;
  _close_node_env (OfNode node) "node".
End Methods.

(** The dispatcher inherited from HiNetTranslator. *)
Fixpoint _translate_node (node : Node) : T unit :=
  match node with
  | FlowNode _ _flow => _translate_flownode _translate_node node _flow
  | CloneLayer _ p count => _translate_clonelayer _translate_node node p count
  | Layer _ nodes => _translate_layer _translate_node node nodes
  | StandardNode _ | Foreign _ => _translate_standard_node node
  end.

Definition write_flow_to_file (flow : Flow) (html_file : fd) : T unit :=
  modify (set_html_file (Some {| file_obj := html_file |})) ;;;
  _translate_flow _translate_node flow ;;;
  modify (set_html_file None).

End HiNetHTMLTranslator.

(** ** What the HTML translator writes *)

(** One [write] call of the decorator: the text and the newline. *)
Definition line (h : html) : html := h ++ [Text newline].

Definition write1 (nwf : NewlineWriteFile) (w : State) (h : html) : State :=
  set_files (<[file_obj nwf := files w !!! file_obj nwf ++ [line h]]> (files w)) w.

(** The state after the write calls [out], in order, through [nwf]. *)
Definition emit (nwf : NewlineWriteFile) (out : list html) (w : State) : State :=
  fold_left (write1 nwf) out w.

(** A method call that returns, and whose whole effect is to write [out]
    through the bound file, whenever the translator is bound to [nwf] and
    holds the registry [reg]. *)
Definition writes (nwf : NewlineWriteFile) (reg : registry)
    (m : M State unit) (out : list html) : Prop :=
  forall w, _html_file w = Some nwf -> _node_param_translators w = reg ->
            m w = (Returns tt, emit nwf out w).

(** The lines of the two environment helpers; [dim] is absent for the two
    wrapper types. *)
Definition in_dim_line (d : Z) : html :=
  [STag "tr" None; STag "td" (Some "dim"); Text ("in-dim: " ++ fmt_d d);
   ETag "td"; ETag "tr"].

Definition out_dim_line (d : Z) : html :=
  [STag "tr" None; STag "td" (Some "dim"); Text ("out-dim: " ++ fmt_d d)].

Definition open_env_lines (dim : option Z) (type_id : string) : list html :=
  [[STag "table" (Some type_id)]]
  ++ match dim with Some d => [in_dim_line d] | None => [] end
  ++ [tr_td; [STag "table" (Some "nodestruct")]].

Definition close_env_lines (dim : option Z) : list html :=
  [[ETag "table"]; td_tr_end]
  ++ match dim with Some d => [out_dim_line d; td_tr_end] | None => [] end
  ++ [[ETag "table"]].

(** The lines of a standard node around its detail block [detail]. *)
Definition standard_block (node : Node) (detail : list html) : list html :=
  open_env_lines (Some (input_dim (attrs node))) "node"
  ++ [[STag "tr" None; STag "td" (Some "nodename")];
      [Text (node_str (attrs node))];
      td_tr_end;
      [STag "tr" None; STag "td" (Some "nodeparams")]]
  ++ detail
  ++ [td_tr_end]
  ++ close_env_lines (Some (output_dim (attrs node))).

Section Lines.
Variable reg : registry.

(** The registry entry the reversed scan stops at. *)
Definition matching_entry (node : Node) : option (string * (Node -> list string)) :=
  find (fun e => isinstance node (fst e)) (rev reg).

(** The detail block: the joined lines of the matching entry, or nothing. *)
Definition detail_lines (node : Node) : list html :=
  match matching_entry node with
  | Some e => [join_br (snd e node)]
  | None => []
  end.

Definition standard_lines (node : Node) : list html :=
  standard_block node (detail_lines node).

Fixpoint node_lines (n : Node) : list html :=
  match n with
  | FlowNode a fl =>
      open_env_lines None "flownode"
      ++ concat (map (fun x => [tr_td] ++ node_lines x ++ [td_tr_end]) fl)
      ++ close_env_lines None
  | CloneLayer a p c =>
      open_env_lines (Some (input_dim a)) "layer"
      ++ [[STag "tr" None; STag "td" (Some "nodename")];
          [Text (node_str a); Br; Br];
          [Text (fmt_d (Z.of_nat c) ++ " repetitions")];
          [ETag "td"];
          [STag "td" None]]
      ++ node_lines p
      ++ [td_tr_end]
      ++ close_env_lines (Some (output_dim a))
  | Layer a ns =>
      open_env_lines (Some (input_dim a)) "layer"
      ++ [[STag "tr" None]]
      ++ concat (map (fun x => [[STag "td" None]] ++ node_lines x ++ [[ETag "td"]]) ns)
      ++ [[ETag "tr"]]
      ++ close_env_lines (Some (output_dim a))
  | StandardNode _ | Foreign _ => standard_lines n
  end.

Definition flow_lines (flow : Flow) : list html :=
  open_env_lines None "flow"
  ++ concat (map (fun x => [tr_td] ++ node_lines x ++ [td_tr_end]) flow)
  ++ [td_tr_end]
  ++ close_env_lines None.
End Lines.

(** ** Nesting of markers

    The open marker of an environment is a [<table ...>] tag and its close
    marker a [</table>] tag; the definitions are stated for any tag name. *)

Definition opens (tag : string) (t : token) : bool :=
  match t with
  | STag name _ => String.eqb name tag
  | _ => false
  end.

Definition closes (tag : string) (t : token) : bool :=
  match t with
  | ETag name => String.eqb name tag
  | _ => false
  end.

Fixpoint count (p : token -> bool) (ts : list token) : nat :=
  match ts with
  | [] => 0
  | t :: ts' => (if p t then 1 else 0) + count p ts'
  end.

(** The depth after reading [ts] at depth [d]; [None] when a close marker
    comes at depth 0. *)
Fixpoint nesting (tag : string) (d : nat) (ts : list token) : option nat :=
  match ts with
  | [] => Some d
  | t :: ts' =>
      if opens tag t then nesting tag (Datatypes.S d) ts'
      else if closes tag t then
             match d with
             | 0 => None
             | Datatypes.S d' => nesting tag d' ts'
             end
           else nesting tag d ts'
  end.

(** The tokens of a sequence of write calls. *)
Definition tokens (out : list html) : list token := concat (map line out).

(** Token sequences that return to the depth they start from. *)
Definition neutral (tag : string) (ts : list token) : Prop :=
  forall d, nesting tag d ts = Some d.

(** Token sequences that lead from depth [j] to depth [k], whatever lies
    below. *)
Definition lifts (tag : string) (j k : nat) (ts : list token) : Prop :=
  forall d, nesting tag (j + d) ts = Some (k + d).

(** The tag of the environment markers. *)
Definition marker : string := "table".

(** ** Message keys, and class SenderBiNode *)

(** [s.startswith(p)] *)
Fixpoint startswith (s p : string) {struct p} : bool :=
  match p, s with
  | EmptyString, _ => true
  | String _ _, EmptyString => false
  | String a p', String b s' => Ascii.eqb a b && startswith s' p'
  end.

(** [s[n:]] *)
Fixpoint drop_chars (n : nat) (s : string) : string :=
  match n, s with
  | 0, _ => s
  | Datatypes.S n', String _ s' => drop_chars n' s'
  | Datatypes.S _, EmptyString => EmptyString
  end.

(** [sep in s] *)
Fixpoint occurs (sep s : string) : bool :=
  if startswith s sep then true
  else match s with
       | EmptyString => false
       | String _ s' => occurs sep s'
       end.

(** Modelled from the spec: the reader of message keys is in [bimdp],
    outside the source files.  The key is split at the first occurrence of
    the separator; a key without the separator does not split. *)
Fixpoint split_first (sep s : string) : option (string * string) :=
  if startswith s sep then Some (EmptyString, drop_chars (String.length sep) s)
  else match s with
       | EmptyString => None
       | String c s' =>
           match split_first sep s' with
           | Some (before, after) => Some (String c before, after)
           | None => None
           end
       end.

(** Whether some non-empty proper suffix of [sep], taken from [rest], is
    also a prefix of [sep]. *)
Fixpoint border_in (sep rest : string) : bool :=
  match rest with
  | EmptyString => false
  | String _ rest' =>
      (negb (String.eqb rest' EmptyString) && startswith sep rest')
      || border_in sep rest'
  end.

Definition has_border (sep : string) : bool := border_in sep sep.

(** [recipient_id + MSG_ID_SEP + payload_name] *)
Definition addressed_key (sep recipient_id payload_name : string) : string :=
  recipient_id ++ sep ++ payload_name.

(** The values [no_x] is given, and Python's truth value of each. *)
Inductive PyVal : Type :=
| PyNone
| PyBool (b : bool)
| PyInt (z : Z)
| PyStr (s : string).

Definition truthy (v : PyVal) : bool :=
  match v with
  | PyNone => false
  | PyBool b => b
  | PyInt z => negb (Z.eqb z 0)
  | PyStr s => negb (String.eqb s EmptyString)
  end.

Module SenderBiNode.
Section Sender.
(** The separator is imported from [bimdp]; its value is not in the
    source files. *)
Variable MSG_ID_SEP : string.
(** The type of the data [x]. *)
Context {X : Type}.

Record Self : Type := { _recipient_id : option string }.

Definition __init__ (recipient_id : option string) : Self :=
  {| _recipient_id := recipient_id |}.

(** [if self._recipient_id:] *)
Definition recipient_set (self : Self) : option string :=
  match _recipient_id self with
  | Some (String c s) => Some (String c s)
  | Some EmptyString | None => None
  end.

Definition _execute (self : Self) (x : X) (no_x : PyVal)
    : option X * gmap string X :=
  let msg : gmap string X := ∅ in
  let msg :=
    match recipient_set self with
    | Some recipient_id => <[addressed_key MSG_ID_SEP recipient_id "msg_x" := x]> msg
    | None => <["msg_x" := x]> msg
    end in
  let x' := if truthy no_x then None else Some x in
  (x', msg).
End Sender.
End SenderBiNode.

(** The key under which [_execute] files [x]. *)
Definition message_key (sep : string) (recipient_id : option string) : string :=
  match recipient_id with
  | Some (String c s) => addressed_key sep (String c s) "msg_x"
  | Some EmptyString | None => "msg_x"
  end.

(** ** Sample nodes for the concrete runs *)

Definition sample_A : Node :=
  StandardNode {| oid := 1; classes := ["PCANode"; "Node"]; node_str := "PCANode";
                  input_dim := 10; output_dim := 5 |}.

Definition sample_B : Node :=
  StandardNode {| oid := 2; classes := ["SFANode"; "Node"]; node_str := "SFANode";
                  input_dim := 5; output_dim := 3 |}.

Definition sample_clone : Node :=
  CloneLayer {| oid := 3; classes := ["CloneLayer"; "Layer"; "Node"];
                node_str := "CloneLayer"; input_dim := 30; output_dim := 15 |}
             sample_A 3.

(** ** The document of a flow, and the store of registry lists *)

(** What [write_flow_to_file] writes for [flow] into an empty file, by a
    translator made with the registry [reg]: the write calls the file
    receives, oldest first. *)
Definition document (reg : registry) (flow : Flow) : list html :=
  files (snd (HiNetHTMLTranslator.write_flow_to_file flow 0
                (HiNetHTMLTranslator.__init__ reg ∅))) !!! 0.

(** The table that [_open_node_env] writes last, one for each environment. *)
Definition is_nodestruct (t : token) : bool :=
  match t with
  | STag name (Some c) => String.eqb name "table" && String.eqb c "nodestruct"
  | _ => false
  end.

(** The registry is a Python list, and [__init__] stores the list it is
    given, not a copy: the lists live in a store and a translator holds a
    reference into it.  [add_node_param_translators] is [+=] on a list, which
    extends the list object in place. *)
Module RegistryStore.

Definition ref : Type := nat.

Record Store : Type := {
  lists : gmap ref registry;         (* the list objects *)
  translators : gmap nat ref         (* self._node_param_translators, by instance *)
}.


(** [self._node_param_translators = node_param_translators] *)
Definition __init__ (self : nat) (node_param_translators : ref) : M Store unit :=
  modify (fun s => {| lists := lists s;
                      translators := <[self := node_param_translators]> (translators s) |}).

(** [self._node_param_translators += node_param_translators] *)
Definition add_node_param_translators (self : nat) (more : registry) : M Store unit :=
  s <- get ;;
  match translators s !! self with
  | None => raise (AttributeError "_node_param_translators")
  | Some r =>
      match lists s !! r with
      | None => raise (AttributeError "_node_param_translators")
      | Some l =>
          modify (fun s => {| lists := <[r := l ++ more]> (lists s);
                              translators := translators s |})
      end
  end.


End RegistryStore.

(** * Proofs *)

(** ** Running the monad *)

Section MonadFacts.
Context {S : Type}.

Lemma bind_returns {A B} (m : M S A) (k : A -> M S B) s a s' :
  m s = (Returns a, s') -> bind m k s = k a s'.
Proof. intros H. unfold bind. now rewrite H. Qed.

Lemma bind_raises {A B} (m : M S A) (k : A -> M S B) s e s' :
  m s = (Raises e, s') -> bind m k s = (Raises e, s').
Proof. intros H. unfold bind. now rewrite H. Qed.

Lemma for_append_returns {A B} (f : A -> M S B) (g : A -> B) (step : A -> S -> S) xs :
  Forall (fun x => forall s, f x s = (Returns (g x), step x s)) xs ->
  forall acc s,
    for_append f acc xs s
    = (Returns (acc ++ map g xs), fold_left (fun s x => step x s) xs s).
Proof.
  induction 1 as [|x xs Hx _ IH]; intros acc s; simpl.
  - now rewrite app_nil_r.
  - rewrite (bind_returns _ _ _ _ _ (Hx s)), IH, <- app_assoc. reflexivity.
Qed.
End MonadFacts.

Module GenericFacts.
Import HiNetTranslator.

Lemma fold_left_log (xs : list Node) (cs : Calls) :
  fold_left (fun s x => s ++ visits x) xs cs = cs ++ concat (map visits xs).
Proof.
  revert cs. induction xs as [|x xs IH]; intros cs; simpl.
  - now rewrite app_nil_r.
  - now rewrite IH, <- app_assoc.
Qed.

Lemma members_run (xs : list Node) :
  Forall (fun x => forall cs,
            _translate_node x cs = (Returns (translation_of x), cs ++ visits x)) xs ->
  forall cs,
    for_append _translate_node [] xs cs
    = (Returns (map translation_of xs), cs ++ concat (map visits xs)).
Proof.
  intros H cs.
  rewrite (for_append_returns _ translation_of (fun x s => s ++ visits x) xs H).
  now rewrite fold_left_log.
Qed.

(** Every call returns: the value is [translation_of node] and the log
    grows by [visits node]. *)
Lemma translate_node_run (node : Node) :
  forall cs, _translate_node node cs = (Returns (translation_of node), cs ++ visits node).
Proof.
  induction node as [a|a fl IH|a ns IH|a p c IH|a] using Node_nested_ind;
    intros cs; simpl.
  - reflexivity.
  - unfold bind at 1, log_call, modify. unfold _translate_flownode.
    erewrite bind_returns by (apply members_run, IH).
    unfold ret. now rewrite <- app_assoc.
  - unfold bind at 1, log_call, modify. unfold _translate_layer.
    erewrite bind_returns by (apply members_run, IH).
    unfold ret. now rewrite <- app_assoc.
  - unfold bind at 1, log_call, modify. unfold _translate_clonelayer.
    erewrite bind_returns; [|erewrite bind_returns by apply IH; reflexivity].
    unfold ret, clone_nodes. now rewrite repeat_length, <- app_assoc.
  - reflexivity.
Qed.

Lemma translate_flow_run (flow : Flow) (cs : Calls) :
  _translate_flow _translate_node flow cs
  = (Returns (map translation_of flow), cs ++ concat (map visits flow)).
Proof.
  apply members_run, Forall_forall. intros x _ cs'. apply translate_node_run.
Qed.

Lemma visits_head (n : Node) : exists rest, visits n = n :: rest.
Proof. destruct n; simpl; eauto. Qed.

(** Below the first call, a traversal only meets strictly smaller nodes. *)
Lemma visits_smaller (n : Node) :
  Forall (fun m => node_size m <= node_size n) (visits n)
  /\ Forall (fun m => node_size m < node_size n) (tail (visits n)).
Proof.
  induction n as [a|a fl IH|a ns IH|a p c IH|a] using Node_nested_ind; simpl.
  - split; repeat constructor.
  - assert (Forall (fun m => node_size m <= list_sum (map node_size fl))
              (concat (map visits fl))) as Hall.
    { induction IH as [|x xs [Hx _] _ IHxs]; simpl; [constructor|].
      apply Forall_app. split.
      - eapply Forall_impl; [exact Hx|]. simpl. intros; lia.
      - eapply Forall_impl; [exact IHxs|]. simpl. intros; lia. }
    split; [constructor; [simpl; lia|]|];
      (eapply Forall_impl; [exact Hall|]; simpl; intros; lia).
  - assert (Forall (fun m => node_size m <= list_sum (map node_size ns))
              (concat (map visits ns))) as Hall.
    { induction IH as [|x xs [Hx _] _ IHxs]; simpl; [constructor|].
      apply Forall_app. split.
      - eapply Forall_impl; [exact Hx|]. simpl. intros; lia.
      - eapply Forall_impl; [exact IHxs|]. simpl. intros; lia. }
    split; [constructor; [simpl; lia|]|];
      (eapply Forall_impl; [exact Hall|]; simpl; intros; lia).
  - destruct IH as [Hle _].
    split; [constructor; [simpl; lia|]|];
      (eapply Forall_impl; [exact Hle|]; simpl; intros; lia).
  - split; repeat constructor.
Qed.
End GenericFacts.

Section Writes.
Import HiNetHTMLTranslator.
Variable nwf : NewlineWriteFile.
Variable reg : registry.

Lemma emit_app o1 o2 w : emit nwf (o1 ++ o2) w = emit nwf o2 (emit nwf o1 w).
Proof. unfold emit. apply fold_left_app. Qed.

Lemma emit_html_file out w : _html_file (emit nwf out w) = _html_file w.
Proof.
  unfold emit. revert w.
  induction out as [|h out IH]; intros w; simpl; [reflexivity|].
  now rewrite IH.
Qed.

Lemma emit_registry out w :
  _node_param_translators (emit nwf out w) = _node_param_translators w.
Proof.
  unfold emit. revert w.
  induction out as [|h out IH]; intros w; simpl; [reflexivity|].
  now rewrite IH.
Qed.

Lemma emit_files out w :
  out <> [] ->
  files (emit nwf out w)
  = <[file_obj nwf := files w !!! file_obj nwf ++ map line out]> (files w).
Proof.
  revert w. induction out as [|h out IH]; intros w Hne; [congruence|].
  destruct out as [|h' out]; [reflexivity|].
  change (emit nwf (h :: h' :: out) w) with (emit nwf (h' :: out) (write1 nwf w h)).
  rewrite IH by discriminate. unfold write1. simpl files.
  rewrite lookup_total_insert_eq, insert_insert_eq, <- app_assoc. reflexivity.
Qed.

Lemma emit_written out w :
  files (emit nwf out w) !!! file_obj nwf
  = files w !!! file_obj nwf ++ map line out.
Proof.
  destruct out as [|h out]; [simpl; now rewrite app_nil_r|].
  rewrite emit_files by discriminate. apply lookup_total_insert_eq.
Qed.

Lemma emit_elsewhere out w (other : fd) :
  other <> file_obj nwf -> files (emit nwf out w) !! other = files w !! other.
Proof.
  intros Hne. destruct out as [|h out]; [reflexivity|].
  rewrite emit_files by discriminate. now apply lookup_insert_ne.
Qed.

Lemma writes_ret : writes nwf reg (ret tt) [].
Proof. intros w _ _. reflexivity. Qed.

Lemma writes_seq m1 m2 o1 o2 :
  writes nwf reg m1 o1 -> writes nwf reg m2 o2 ->
  writes nwf reg (m1 ;;; m2) (o1 ++ o2).
Proof.
  intros H1 H2 w Hf Hr.
  rewrite (bind_returns _ _ _ _ _ (H1 w Hf Hr)), emit_app.
  apply H2; [now rewrite emit_html_file | now rewrite emit_registry].
Qed.

Lemma writes_fwrite h : writes nwf reg (fwrite (Some nwf) h) [h].
Proof. intros w _ _. reflexivity. Qed.

Lemma writes_get_html_file (k : option NewlineWriteFile -> T unit) out :
  writes nwf reg (k (Some nwf)) out ->
  writes nwf reg (f <- get_html_file ;; k f) out.
Proof.
  intros H w Hf Hr. unfold get_html_file, bind, get, ret. simpl.
  rewrite Hf. now apply H.
Qed.

Lemma writes_get_registry (k : State -> T unit) out :
  (forall w, _html_file w = Some nwf -> _node_param_translators w = reg ->
             k w w = (Returns tt, emit nwf out w)) ->
  writes nwf reg (w <- get ;; k w) out.
Proof. intros H w Hf Hr. unfold bind, get. now apply H. Qed.

Lemma writes_for {A} (body : A -> T unit) (o : A -> list html) xs :
  Forall (fun x => writes nwf reg (body x) (o x)) xs ->
  writes nwf reg (for_ body xs) (concat (map o xs)).
Proof.
  induction 1 as [|x xs Hx _ IH]; simpl.
  - apply writes_ret.
  - now apply writes_seq.
Qed.
End Writes.

Module HTMLFacts.
Import HiNetHTMLTranslator.

Section Run.
Variable nwf : NewlineWriteFile.
Variable reg : registry.

Local Notation writes := (writes nwf reg).

Lemma writes_eq m o o' : writes m o -> o = o' -> writes m o'.
Proof. now intros H <-. Qed.

Lemma writes_bind_ret {A} (v : A) (k : A -> T unit) o :
  writes (k v) o -> writes (x <- ret v ;; k x) o.
Proof. intros H w Hf Hr. exact (H w Hf Hr). Qed.

Ltac run :=
  repeat first
    [ apply writes_get_html_file
    | apply writes_fwrite
    | apply writes_ret
    | apply writes_seq ].

Lemma open_wrapper_writes o type_id :
  is_wrapper type_id = true ->
  writes (_open_node_env o type_id) (open_env_lines None type_id).
Proof.
  intros Hw. unfold _open_node_env. rewrite Hw. simpl negb.
  eapply writes_eq; [run|reflexivity].
Qed.

Lemma open_node_writes n type_id :
  is_wrapper type_id = false ->
  writes (_open_node_env (OfNode n) type_id)
         (open_env_lines (Some (input_dim (attrs n))) type_id).
Proof.
  intros Hw. unfold _open_node_env. rewrite Hw. simpl negb.
  eapply writes_eq.
  - apply writes_get_html_file. apply writes_seq; [apply writes_fwrite|].
    apply writes_seq; [|run].
    apply (writes_bind_ret (input_dim (attrs n))). apply writes_fwrite.
  - reflexivity.
Qed.

Lemma close_wrapper_writes o type_id :
  is_wrapper type_id = true ->
  writes (_close_node_env o type_id) (close_env_lines None).
Proof.
  intros Hw. unfold _close_node_env. rewrite Hw. simpl negb.
  eapply writes_eq; [run|reflexivity].
Qed.

Lemma close_node_writes n type_id :
  is_wrapper type_id = false ->
  writes (_close_node_env (OfNode n) type_id)
         (close_env_lines (Some (output_dim (attrs n)))).
Proof.
  intros Hw. unfold _close_node_env. rewrite Hw. simpl negb.
  eapply writes_eq.
  - apply writes_get_html_file. apply writes_seq; [apply writes_fwrite|].
    apply writes_seq; [apply writes_fwrite|].
    apply writes_seq; [|run].
    apply (writes_bind_ret (output_dim (attrs n))). run.
  - reflexivity.
Qed.

(** The scan writes the detail block of the first match from the end. *)
Lemma scan_writes node reversed :
  writes (scan_param_translators (Some nwf) node reversed)
         (match find (fun e => isinstance node (fst e)) reversed with
          | Some e => [join_br (snd e node)]
          | None => []
          end).
Proof.
  induction reversed as [|e rest IH]; simpl.
  - apply writes_ret.
  - destruct (isinstance node (fst e)); [apply writes_fwrite|exact IH].
Qed.

Lemma standard_node_writes node :
  writes (_translate_standard_node node) (standard_lines reg node).
Proof.
  unfold _translate_standard_node, standard_lines, standard_block.
  apply writes_get_html_file.
  apply writes_seq; [now apply open_node_writes|].
  eapply writes_eq.
  - do 4 (apply writes_seq; [apply writes_fwrite|]).
    apply writes_seq; [|apply writes_seq; [apply writes_fwrite|]].
    + apply writes_get_registry. intros w Hf Hr. rewrite Hr.
      now apply scan_writes.
    + now apply close_node_writes.
  - reflexivity.
Qed.

Section Members.
Variable self_translate_node : Node -> T unit.

Lemma flow_writes flow :
  Forall (fun x => writes (self_translate_node x) (node_lines reg x)) flow ->
  writes (_translate_flow self_translate_node flow) (flow_lines reg flow).
Proof.
  intros H. unfold _translate_flow, flow_lines.
  apply writes_get_html_file.
  apply writes_seq; [now apply open_wrapper_writes|].
  apply writes_seq; [|apply writes_seq;
                       [apply writes_fwrite|now apply close_wrapper_writes]].
  apply (writes_for nwf reg _
           (fun x => [tr_td] ++ node_lines reg x ++ [td_tr_end])).
  eapply Forall_impl; [exact H|]. intros x Hx. cbv beta.
  apply writes_seq; [apply writes_fwrite|].
  apply writes_seq; [exact Hx|apply writes_fwrite].
Qed.

Lemma flownode_writes a fl :
  Forall (fun x => writes (self_translate_node x) (node_lines reg x)) fl ->
  writes (_translate_flownode self_translate_node (FlowNode a fl) fl)
         (node_lines reg (FlowNode a fl)).
Proof.
  intros H. unfold _translate_flownode.
  eapply writes_eq.
  {
    apply writes_get_html_file.
    apply writes_seq; [now apply open_wrapper_writes|].
    apply writes_seq; [|now apply close_wrapper_writes].
    apply (writes_for nwf reg _
             (fun x => [tr_td] ++ node_lines reg x ++ [td_tr_end])).
    eapply Forall_impl; [exact H|]. intros x Hx. cbv beta.
    apply writes_seq; [apply writes_fwrite|].
    apply writes_seq; [exact Hx|apply writes_fwrite].
  }
  reflexivity.
Qed.

Lemma layer_writes a ns :
  Forall (fun x => writes (self_translate_node x) (node_lines reg x)) ns ->
  writes (_translate_layer self_translate_node (Layer a ns) ns)
         (node_lines reg (Layer a ns)).
Proof.
  intros H. unfold _translate_layer.
  eapply writes_eq.
  {
    apply writes_get_html_file.
    apply writes_seq; [now apply (open_node_writes (Layer a ns))|].
    apply writes_seq; [apply writes_fwrite|].
    apply writes_seq; [|apply writes_seq;
                         [apply writes_fwrite
                         |now apply (close_node_writes (Layer a ns))]].
    apply (writes_for nwf reg _
             (fun x => [[STag "td" None]] ++ node_lines reg x ++ [[ETag "td"]])).
    eapply Forall_impl; [exact H|]. intros x Hx. cbv beta.
    apply writes_seq; [apply writes_fwrite|].
    apply writes_seq; [exact Hx|apply writes_fwrite].
  }
  reflexivity.
Qed.

Lemma clonelayer_writes a p c :
  writes (self_translate_node p) (node_lines reg p) ->
  writes (_translate_clonelayer self_translate_node (CloneLayer a p c) p c)
         (node_lines reg (CloneLayer a p c)).
Proof.
  intros H. unfold _translate_clonelayer, clone_nodes.
  rewrite repeat_length.
  eapply writes_eq.
  {
    apply writes_get_html_file.
    apply writes_seq; [now apply (open_node_writes (CloneLayer a p c))|].
    do 5 (apply writes_seq; [apply writes_fwrite|]).
    apply writes_seq; [exact H|].
    apply writes_seq; [apply writes_fwrite|].
    now apply (close_node_writes (CloneLayer a p c)).
  }
  reflexivity.
Qed.
End Members.

(** Bound to a file, a node's translation returns and writes exactly
    [node_lines]. *)
Lemma translate_node_writes (node : Node) :
  writes (_translate_node node) (node_lines reg node).
Proof.
  induction node as [a|a fl IH|a ns IH|a p c IH|a] using Node_nested_ind;
    simpl _translate_node.
  - apply standard_node_writes.
  - now apply flownode_writes.
  - now apply layer_writes.
  - now apply clonelayer_writes.
  - apply standard_node_writes.
Qed.

Lemma translate_flow_writes (flow : Flow) :
  writes (_translate_flow _translate_node flow) (flow_lines reg flow).
Proof.
  apply flow_writes, Forall_forall. intros x _. apply translate_node_writes.
Qed.
End Run.
End HTMLFacts.

Section Nesting.
Variable tag : string.

Lemma count_app p a b : count p (a ++ b) = count p a + count p b.
Proof. induction a as [|t a IH]; simpl; [reflexivity|]. rewrite IH. lia. Qed.

Lemma nesting_app d a b :
  nesting tag d (a ++ b)
  = match nesting tag d a with
    | Some d' => nesting tag d' b
    | None => None
    end.
Proof.
  revert d. induction a as [|t a IH]; intros d; simpl; [reflexivity|].
  destruct (opens tag t); [apply IH|].
  destruct (closes tag t); [|apply IH].
  destruct d; [reflexivity|apply IH].
Qed.

Lemma nesting_counts ts : forall d d',
  nesting tag d ts = Some d' ->
  d + count (opens tag) ts = d' + count (closes tag) ts.
Proof.
  induction ts as [|t ts IH]; intros d d' H; simpl in *.
  - injection H as <-. reflexivity.
  - destruct t as [name c|name| |s]; simpl in *;
      try (specialize (IH _ _ H); lia).
    + destruct (String.eqb name tag); specialize (IH _ _ H); lia.
    + destruct (String.eqb name tag); [|specialize (IH _ _ H); lia].
      destruct d; [discriminate|]. specialize (IH _ _ H). lia.
Qed.

Lemma nesting_prefix d pre suf d' :
  nesting tag d (pre ++ suf) = Some d' ->
  count (closes tag) pre <= d + count (opens tag) pre.
Proof.
  rewrite nesting_app. destruct (nesting tag d pre) as [d''|] eqn:E; [|discriminate].
  intros _. apply nesting_counts in E. lia.
Qed.

Lemma neutral_nil : neutral tag [].
Proof. intros d. reflexivity. Qed.

Lemma neutral_app a b : neutral tag a -> neutral tag b -> neutral tag (a ++ b).
Proof. intros Ha Hb d. now rewrite nesting_app, Ha. Qed.

Lemma neutral_concat (parts : list (list token)) :
  Forall (neutral tag) parts -> neutral tag (concat parts).
Proof.
  induction 1 as [|p parts Hp _ IH]; simpl; [apply neutral_nil|].
  now apply neutral_app.
Qed.

Lemma lifts_app j k m a b : lifts tag j k a -> lifts tag k m b -> lifts tag j m (a ++ b).
Proof. intros Ha Hb d. now rewrite nesting_app, Ha. Qed.

Lemma neutral_lifts k ts : neutral tag ts -> lifts tag k k ts.
Proof. intros H d. apply H. Qed.

Lemma lifts_neutral ts : lifts tag 0 0 ts -> neutral tag ts.
Proof. intros H d. apply (H d). Qed.

Lemma tokens_app a b : tokens (a ++ b) = tokens a ++ tokens b.
Proof. unfold tokens. now rewrite map_app, concat_app. Qed.

Lemma tokens_concat (parts : list (list html)) :
  tokens (concat parts) = concat (map tokens parts).
Proof.
  induction parts as [|p parts IH]; simpl; [reflexivity|].
  now rewrite tokens_app, IH.
Qed.
End Nesting.

Module MarkerFacts.

Lemma open_env_nesting dim type_id d :
  nesting marker d (tokens (open_env_lines dim type_id)) = Some (2 + d).
Proof. destruct dim; reflexivity. Qed.

Lemma close_env_nesting dim d :
  nesting marker (2 + d) (tokens (close_env_lines dim)) = Some d.
Proof. destruct dim; reflexivity. Qed.

Lemma join_br_neutral lines : neutral marker (join_br lines ++ [Text newline]).
Proof.
  induction lines as [|l lines IH]; intros d; [reflexivity|].
  destruct lines as [|l' lines]; [reflexivity|].
  change (join_br (l :: l' :: lines))
    with (Text l :: Text " " :: Br :: Text newline :: join_br (l' :: lines)).
  simpl. apply IH.
Qed.

Lemma detail_neutral reg node : neutral marker (tokens (detail_lines reg node)).
Proof.
  unfold detail_lines. destruct (matching_entry reg node) as [e|].
  - unfold tokens. simpl. rewrite app_nil_r. apply join_br_neutral.
  - apply neutral_nil.
Qed.

Ltac literal := apply neutral_lifts; intros ?; reflexivity.

Lemma standard_neutral reg node : neutral marker (tokens (standard_lines reg node)).
Proof.
  apply lifts_neutral. unfold standard_lines, standard_block.
  rewrite !tokens_app.
  eapply (lifts_app _ 0 2); [exact (open_env_nesting _ _)|].
  eapply (lifts_app _ 2 2); [literal|].
  eapply (lifts_app _ 2 2); [apply neutral_lifts, detail_neutral|].
  eapply (lifts_app _ 2 2); [literal|].
  exact (close_env_nesting _).
Qed.

(** The members of a flow or layer, each between [pre] and [post]. *)
Lemma members_neutral reg (pre post : list html) (xs : list Node) :
  neutral marker (tokens pre) ->
  neutral marker (tokens post) ->
  Forall (fun x => neutral marker (tokens (node_lines reg x))) xs ->
  neutral marker
    (tokens (concat (map (fun x => pre ++ node_lines reg x ++ post) xs))).
Proof.
  intros Hpre Hpost H. rewrite tokens_concat. apply neutral_concat.
  induction H as [|x xs Hx _ IH]; simpl; constructor; [|exact IH].
  rewrite !tokens_app. auto using neutral_app.
Qed.

Lemma node_neutral reg (n : Node) : neutral marker (tokens (node_lines reg n)).
Proof.
  induction n as [a|a fl IH|a ns IH|a p c IH|a] using Node_nested_ind.
  - apply standard_neutral.
  - apply lifts_neutral. cbn [node_lines]. rewrite !tokens_app.
    eapply (lifts_app _ 0 2); [exact (open_env_nesting _ _)|].
    eapply (lifts_app _ 2 2); [|exact (close_env_nesting _)].
    apply neutral_lifts, members_neutral; [intros d; reflexivity..|exact IH].
  - apply lifts_neutral. cbn [node_lines]. rewrite !tokens_app.
    eapply (lifts_app _ 0 2); [exact (open_env_nesting _ _)|].
    eapply (lifts_app _ 2 2); [literal|].
    eapply (lifts_app _ 2 2);
      [apply neutral_lifts, members_neutral;
       [intros d; reflexivity..|exact IH]|].
    eapply (lifts_app _ 2 2); [literal|].
    exact (close_env_nesting _).
  - apply lifts_neutral. cbn [node_lines]. rewrite !tokens_app.
    eapply (lifts_app _ 0 2); [exact (open_env_nesting _ _)|].
    eapply (lifts_app _ 2 2); [literal|].
    eapply (lifts_app _ 2 2); [apply neutral_lifts, IH|].
    eapply (lifts_app _ 2 2); [literal|].
    exact (close_env_nesting _).
  - apply standard_neutral.
Qed.

Lemma flow_neutral reg (flow : Flow) : neutral marker (tokens (flow_lines reg flow)).
Proof.
  apply lifts_neutral. unfold flow_lines. rewrite !tokens_app.
  eapply (lifts_app _ 0 2); [exact (open_env_nesting _ _)|].
  eapply (lifts_app _ 2 2).
  - apply neutral_lifts, members_neutral; [intros d; reflexivity..|].
    apply Forall_forall. intros x _. apply node_neutral.
  - eapply (lifts_app _ 2 2); [literal|].
    exact (close_env_nesting _).
Qed.

End MarkerFacts.

(** ** The generic translator: results *)

Section GenericResults.
Import HiNetTranslator GenericFacts.

(** C2.  For a CloneLayer with prototype [p] and [count] children,
    [_translate_clonelayer] returns a list of length [count] whose every
    element is the one translation [t] of [p]; the call leaves the state
    that a single [_translate_node p] leaves, and in the calls it adds,
    [p] comes first and never again: the prototype is translated exactly
    once, whatever [count] is. *)
Theorem clonelayer_translates_prototype_once (p : Node) (count : nat) (cs : Calls) :
  exists (t : Translation) (cs' : Calls) (items : list Translation) (rest : list Node),
    _translate_node p cs = (Returns t, cs')
    /\ _translate_clonelayer _translate_node p count cs = (Returns items, cs')
    /\ length items = count
    /\ Forall (fun item => item = t) items
    /\ cs' = cs ++ p :: rest
    /\ Forall (fun n => n <> p) rest.
Proof.
  destruct (visits_head p) as [rest Hrest].
  exists (translation_of p), (cs ++ visits p),
         (repeat (translation_of p) count), rest.
  split; [apply translate_node_run|].
  split.
  { unfold _translate_clonelayer, clone_nodes.
    rewrite (bind_returns _ _ _ _ _ (translate_node_run p cs)).
    unfold ret. now rewrite repeat_length. }
  split; [apply repeat_length|].
  split.
  { apply Forall_forall. intros x Hx. apply list_elem_of_In in Hx.
    now apply repeat_spec in Hx. }
  split; [now rewrite Hrest|].
  destruct (visits_smaller p) as [_ Hlt]. rewrite Hrest in Hlt. simpl in Hlt.
  eapply Forall_impl; [exact Hlt|]. simpl. intros n Hn ->. lia.
Qed.

(** C3, as the code has it.  [_translate_node] returns for every node, of
    the four variants or not: there is no failure on the variant.  A node
    outside the four variants takes the standard-node branch and is
    returned unchanged. *)
Theorem translate_node_never_fails (node : Node) (cs : Calls) :
  exists t : Translation,
    fst (_translate_node node cs) = Returns t
    /\ (if in_closed_set node then t = translation_of node else t = TNode node).
Proof.
  exists (translation_of node). rewrite translate_node_run. split; [reflexivity|].
  destruct node; reflexivity.
Qed.

(** C3 fails as stated: an object outside the four variants is translated
    to itself, and no error is raised. *)
Lemma foreign_node_is_translated :
  let o := Foreign {| oid := 7; classes := ["object"]; node_str := "thing";
                      input_dim := 0; output_dim := 0 |} in
  in_closed_set o = false
  /\ _translate_node o [] = (Returns (TNode o), [o])
  /\ ~ (exists e, fst (_translate_node o []) = Raises e).
Proof.
  simpl. split; [reflexivity|]. split; [reflexivity|].
  intros [e He]. discriminate He.
Qed.

(** C4.  The translation of a FlowNode is the translation of its inner
    flow: the same list, with no level added. *)
Theorem flownode_is_transparent (a : Attrs) (g : Flow) (cs cs' : Calls) :
  exists items : list Translation,
    fst (_translate_flow _translate_node g cs') = Returns items
    /\ fst (_translate_node (FlowNode a g) cs) = Returns (TList items).
Proof.
  exists (map translation_of g).
  now rewrite translate_flow_run, translate_node_run.
Qed.

(** C8.  For a flow of standard nodes only, the translation is a list as
    long as the flow, whose i-th element is the i-th node itself. *)
Theorem standard_flow_passes_through (flow : Flow) (cs : Calls) :
  forallb is_standard flow = true ->
  exists items : list Translation,
    fst (_translate_flow _translate_node flow cs) = Returns items
    /\ length items = length flow
    /\ forall i n, nth_error flow i = Some n -> nth_error items i = Some (TNode n).
Proof.
  intros Hstd. exists (map translation_of flow).
  rewrite translate_flow_run. split; [reflexivity|].
  split; [apply length_map|].
  intros i n Hi. rewrite nth_error_map, Hi. simpl. f_equal.
  rewrite forallb_forall in Hstd.
  specialize (Hstd n (nth_error_In _ _ Hi)).
  destruct n; simpl in Hstd; try discriminate. reflexivity.
Qed.

Lemma standard_flow_passes_through_witness :
  let A := StandardNode {| oid := 1; classes := ["Node"]; node_str := "A";
                           input_dim := 2; output_dim := 2 |} in
  let B := StandardNode {| oid := 2; classes := ["Node"]; node_str := "B";
                           input_dim := 2; output_dim := 3 |} in
  exists items : list Translation,
    fst (_translate_flow _translate_node [A; B] []) = Returns items
    /\ length items = 2
    /\ forall i n, nth_error [A; B] i = Some n -> nth_error items i = Some (TNode n).
Proof.
  intros A B. apply (standard_flow_passes_through [A; B] []). reflexivity.
Defined.
End GenericResults.

(** ** The HTML translator: results *)

Section HTMLResults.
Import HiNetHTMLTranslator HTMLFacts MarkerFacts.

(** The whole of [write_flow_to_file]: bind, write the lines of the flow,
    unbind.  It holds in every state, bound or not. *)
Lemma write_flow_run (flow : Flow) (html_file : fd) (w : State) :
  let nwf := {| file_obj := html_file |} in
  write_flow_to_file flow html_file w
  = (Returns tt,
     set_html_file None
       (emit nwf (flow_lines (_node_param_translators w) flow)
             (set_html_file (Some nwf) w))).
Proof.
  intros nwf. unfold write_flow_to_file.
  unfold bind at 1, modify.
  erewrite bind_returns; [reflexivity|].
  now apply translate_flow_writes.
Qed.

Lemma written_by_write_flow (flow : Flow) (html_file : fd) (w : State) :
  files (snd (write_flow_to_file flow html_file w)) !!! html_file
  = files w !!! html_file
    ++ map line (flow_lines (_node_param_translators w) flow).
Proof.
  rewrite write_flow_run.
  exact (emit_written {| file_obj := html_file |} _ _).
Qed.

Lemma untouched_by_write_flow (flow : Flow) (html_file other : fd) (w : State) :
  other <> html_file ->
  files (snd (write_flow_to_file flow html_file w)) !! other = files w !! other.
Proof.
  intros Hne. rewrite write_flow_run.
  exact (emit_elsewhere {| file_obj := html_file |} _ _ other Hne).
Qed.

Lemma concat_take_drop (out : list html) k :
  concat out = concat (take k out) ++ concat (drop k out).
Proof. now rewrite <- concat_app, take_drop. Qed.

(** C1.  [write_flow_to_file] returns, and appends to the file a sequence
    [out] of write calls in which the open markers are as many as the
    close markers, and in which no prefix, whether it ends inside a write
    call or between two, has more close markers than open markers. *)
Theorem markup_is_balanced (flow : Flow) (html_file : fd) (w : State) :
  exists out : list html,
    fst (write_flow_to_file flow html_file w) = Returns tt
    /\ files (snd (write_flow_to_file flow html_file w)) !!! html_file
       = files w !!! html_file ++ out
    /\ count (opens marker) (concat out) = count (closes marker) (concat out)
    /\ (forall pre suf, concat out = pre ++ suf ->
          count (closes marker) pre <= count (opens marker) pre)
    /\ (forall k, count (closes marker) (concat (take k out))
                  <= count (opens marker) (concat (take k out))).
Proof.
  set (reg := _node_param_translators w).
  exists (map line (flow_lines reg flow)).
  pose proof (flow_neutral reg flow 0) as Hbal. unfold tokens in Hbal.
  split; [now rewrite write_flow_run|].
  split; [apply written_by_write_flow|].
  split; [apply (nesting_counts _ _ _ _ Hbal)|].
  assert (forall pre suf, concat (map line (flow_lines reg flow)) = pre ++ suf ->
            count (closes marker) pre <= count (opens marker) pre) as Hpre.
  { intros pre suf E. rewrite E in Hbal.
    apply (nesting_prefix _ _ _ _ _ Hbal). }
  split; [exact Hpre|].
  intros k. eapply Hpre, concat_take_drop.
Qed.

Lemma matching_entry_last (before after : registry) cls R (node : Node) :
  isinstance node cls = true ->
  forallb (fun e => negb (isinstance node (fst e))) after = true ->
  matching_entry (before ++ (cls, R) :: after) node = Some (cls, R).
Proof.
  intros Hm Hafter. unfold matching_entry.
  rewrite rev_app_distr. simpl. rewrite <- app_assoc. simpl.
  assert (forall (l tail : registry),
            forallb (fun e => negb (isinstance node (fst e))) l = true ->
            find (fun e => isinstance node (fst e)) (rev l ++ tail)
            = find (fun e => isinstance node (fst e)) tail) as Hskip.
  { induction l as [|e l IH]; intros tail Hl; simpl in *; [reflexivity|].
    apply andb_prop in Hl as [He Hl]. rewrite <- app_assoc, IH by exact Hl.
    simpl. destruct (isinstance node (fst e)); [discriminate|reflexivity]. }
  rewrite Hskip by exact Hafter. simpl. now rewrite Hm.
Qed.

Lemma matching_entry_none (reg : registry) (node : Node) :
  forallb (fun e => negb (isinstance node (fst e))) reg = true ->
  matching_entry reg node = None.
Proof.
  intros H. unfold matching_entry.
  destruct (find _ (rev reg)) as [e|] eqn:E; [|reflexivity].
  apply find_some in E as [Hin He]. apply in_rev in Hin.
  rewrite forallb_forall in H. specialize (H e Hin).
  now rewrite He in H.
Qed.

(** C5.  With the registry [before ++ (cls, R) :: after], where the node
    is an instance of [cls] and of no class of [after], the node is
    rendered with [R], whatever [before] holds: of the matching entries
    the last registered one is used. *)
Theorem last_registered_entry_wins (nwf : NewlineWriteFile)
    (before after : registry) (cls : string) (R : Node -> list string)
    (node : Node) (w : State) :
  _html_file w = Some nwf ->
  _node_param_translators w = before ++ (cls, R) :: after ->
  isinstance node cls = true ->
  forallb (fun e => negb (isinstance node (fst e))) after = true ->
  _translate_standard_node node w
  = (Returns tt, emit nwf (standard_block node [join_br (R node)]) w).
Proof.
  intros Hf Hr Hm Hafter.
  rewrite (standard_node_writes nwf _ node w Hf eq_refl).
  unfold standard_lines, detail_lines.
  now rewrite Hr, (matching_entry_last before after cls R node Hm Hafter).
Qed.

Lemma last_registered_entry_wins_witness :
  let R1 := fun _ : Node => ["first"] in
  let R2 := fun _ : Node => ["second"; "entry"] in
  let node := StandardNode {| oid := 1; classes := ["TypeA"; "Node"];
                              node_str := "TypeA"; input_dim := 4;
                              output_dim := 2 |} in
  let nwf := {| file_obj := 0 |} in
  let w := {| _node_param_translators := [("TypeA", R1); ("TypeA", R2)];
              _html_file := Some nwf; files := ∅ |} in
  _translate_standard_node node w
  = (Returns tt, emit nwf (standard_block node [join_br (R2 node)]) w).
Proof.
  intros R1 R2 node nwf w.
  apply (last_registered_entry_wins nwf [("TypeA", R1)] [] "TypeA" R2 node w);
    reflexivity.
Defined.

(** C6, as the code has it.  A call made while the translator is bound
    to a sink does not fail: it binds the translator to the new sink,
    writes the whole document there, leaves every other file as it was
    and ends with the translator unbound. *)
Theorem call_while_bound_rebinds (old : NewlineWriteFile) (flow : Flow)
    (html_file : fd) (w : State) :
  _html_file w = Some old ->
  exists w' : State,
    write_flow_to_file flow html_file w = (Returns tt, w')
    /\ _html_file w' = None
    /\ files w' !!! html_file
       = files w !!! html_file
         ++ map line (flow_lines (_node_param_translators w) flow)
    /\ flow_lines (_node_param_translators w) flow <> []
    /\ (forall other : fd, other <> html_file ->
          files w' !! other = files w !! other).
Proof.
  intros _. exists (snd (write_flow_to_file flow html_file w)).
  split; [now rewrite write_flow_run|].
  split; [now rewrite write_flow_run|].
  split; [apply written_by_write_flow|].
  split; [discriminate|].
  intros other Hne. now apply untouched_by_write_flow.
Qed.

Lemma call_while_bound_rebinds_witness :
  let w := {| _node_param_translators := [];
              _html_file := Some {| file_obj := 1 |};
              files := ∅ |} in
  exists w' : State,
    write_flow_to_file [] 2 w = (Returns tt, w')
    /\ _html_file w' = None
    /\ files w' !!! 2 = files w !!! 2 ++ map line (flow_lines [] [])
    /\ flow_lines [] [] <> []
    /\ (forall other : fd, other <> 2 -> files w' !! other = files w !! other).
Proof.
  intros w. apply (call_while_bound_rebinds {| file_obj := 1 |} [] 2 w).
  reflexivity.
Defined.

(** C6 fails as stated: bound to file 1, the translator is called for
    file 2; the call returns without an error and has written seven lines
    to file 2. *)
Lemma call_while_bound_writes :
  let w := {| _node_param_translators := [];
              _html_file := Some {| file_obj := 1 |};
              files := ∅ |} in
  _html_file w = Some {| file_obj := 1 |}
  /\ fst (write_flow_to_file [] 2 w) = Returns tt
  /\ length (files (snd (write_flow_to_file [] 2 w)) !!! 2) = 7.
Proof.
  intros w. split; [reflexivity|].
  split; [now rewrite write_flow_run|].
  rewrite written_by_write_flow. reflexivity.
Qed.

(** C7.  When the node is an instance of no class of the registry, the
    call still returns, and the lines of the node are written with an
    empty detail block: the parameter cell is opened and closed with
    nothing between. *)
Theorem registry_miss_gives_empty_detail (nwf : NewlineWriteFile)
    (node : Node) (w : State) :
  _html_file w = Some nwf ->
  forallb (fun e => negb (isinstance node (fst e)))
          (_node_param_translators w) = true ->
  _translate_standard_node node w
  = (Returns tt, emit nwf (standard_block node []) w).
Proof.
  intros Hf Hmiss.
  rewrite (standard_node_writes nwf _ node w Hf eq_refl).
  unfold standard_lines, detail_lines.
  now rewrite (matching_entry_none _ node Hmiss).
Qed.

Lemma registry_miss_gives_empty_detail_witness :
  let node := StandardNode {| oid := 1; classes := ["PCANode"; "Node"];
                              node_str := "PCANode"; input_dim := 4;
                              output_dim := 2 |} in
  let nwf := {| file_obj := 0 |} in
  let w := {| _node_param_translators := [("SFA2Node", fun _ => ["expansion"])];
              _html_file := Some nwf; files := ∅ |} in
  _translate_standard_node node w
  = (Returns tt, emit nwf (standard_block node []) w).
Proof.
  intros node nwf w.
  apply (registry_miss_gives_empty_detail nwf node w); reflexivity.
Defined.
End HTMLResults.

Section Strings.
Lemma startswith_app (p t : string) : startswith (p +:+ t) p = true.
Proof.
  induction p as [|a p IH]; simpl; [reflexivity|].
  now rewrite Ascii.eqb_refl, IH.
Qed.

Lemma drop_chars_app (p t : string) : drop_chars (String.length p) (p +:+ t) = t.
Proof. induction p as [|a p IH]; simpl; [reflexivity|exact IH]. Qed.

(** A prefix of [r +:+ y] lies within [r], or is [r] and a non-empty
    prefix of [y]. *)
Lemma startswith_split (r y x : string) :
  startswith (r +:+ y) x = true ->
  startswith r x = true
  \/ exists q, q <> EmptyString /\ x = r +:+ q /\ startswith y q = true.
Proof.
  revert x. induction r as [|c r IH]; intros x H; simpl in *.
  - destruct x as [|a x]; [now left|].
    right. exists (String a x). repeat split; [discriminate|exact H].
  - destruct x as [|a x]; [now left|]. simpl in *.
    apply andb_prop in H as [Hac H]. apply Ascii.eqb_eq in Hac as ->.
    destruct (IH x H) as [Hl|(q & Hq & -> & Hy)].
    + left. now rewrite Ascii.eqb_refl, Hl.
    + right. exists q. repeat split; assumption.
Qed.

Lemma startswith_shorter (s t q : string) :
  startswith (s +:+ t) q = true ->
  String.length q <= String.length s ->
  startswith s q = true.
Proof.
  revert q. induction s as [|b s IH]; intros q H Hlen; simpl in *.
  - destruct q; simpl in Hlen; [reflexivity|lia].
  - destruct q as [|a q]; [reflexivity|]. simpl in *.
    apply andb_prop in H as [Hab H]. rewrite Hab. simpl.
    apply IH; [exact H|lia].
Qed.

Lemma length_append (s t : string) :
  String.length (s +:+ t) = String.length s + String.length t.
Proof. induction s as [|a s IH]; simpl; [reflexivity|now rewrite IH]. Qed.

Lemma border_in_suffix (sep r q : string) :
  r <> EmptyString -> q <> EmptyString ->
  startswith sep q = true ->
  border_in sep (r +:+ q) = true.
Proof.
  intros Hr Hq Hpre. induction r as [|c r IH]; [congruence|].
  change (border_in sep (String c r +:+ q))
    with ((negb (String.eqb (r +:+ q) EmptyString) && startswith sep (r +:+ q))
          || border_in sep (r +:+ q)).
  destruct r as [|c' r].
  - change (EmptyString +:+ q) with q. rewrite Hpre.
    destruct q; [congruence|reflexivity].
  - apply orb_true_iff. right. apply IH. discriminate.
Qed.

(** Past a non-empty recipient that does not contain it, a separator
    without border cannot start before its own place. *)
Lemma no_early_separator (sep rid payload : string) (c : ascii) :
  has_border sep = false ->
  occurs sep (String c rid) = false ->
  startswith (String c rid +:+ sep +:+ payload) sep = false.
Proof.
  intros Hb Ho.
  destruct (startswith (String c rid +:+ sep +:+ payload) sep) eqn:E; [|reflexivity].
  exfalso.
  assert (startswith (String c rid) sep = false) as Hnot.
  { destruct (startswith (String c rid) sep) eqn:E1; [|reflexivity].
    change (occurs sep (String c rid))
      with (if startswith (String c rid) sep then true else occurs sep rid) in Ho.
    rewrite E1 in Ho. discriminate Ho. }
  destruct (startswith_split _ _ _ E) as [Hin|(q & Hq & Hsep & Hy)];
    [congruence|].
  assert (startswith sep q = true) as Hpre.
  { apply (startswith_shorter sep payload q Hy).
    apply (f_equal String.length) in Hsep.
    rewrite length_append in Hsep. simpl in Hsep. lia. }
  assert (border_in sep (String c rid +:+ q) = true) as Hborder
    by (apply border_in_suffix; [discriminate|exact Hq|exact Hpre]).
  rewrite <- Hsep in Hborder. unfold has_border in Hb. congruence.
Qed.
End Strings.

(** ** The sender node: results *)

Section SenderResults.
Import SenderBiNode.

Lemma execute_message {X : Type} (sep : string) (self : Self) (x : X) (no_x : PyVal) :
  snd (_execute sep self x no_x) = {[ message_key sep (_recipient_id self) := x ]}.
Proof.
  unfold _execute, recipient_set, message_key. simpl.
  destruct (_recipient_id self) as [[|c s]|]; apply insert_empty.
Qed.

Lemma split_addressed_key (sep rid payload : string) :
  has_border sep = false ->
  occurs sep rid = false ->
  split_first sep (addressed_key sep rid payload) = Some (rid, payload).
Proof.
  intros Hb. unfold addressed_key.
  induction rid as [|c rid IH]; intros Ho.
  - change (EmptyString +:+ sep +:+ payload) with (sep +:+ payload).
    destruct sep as [|a sep]; [discriminate Ho|].
    change (split_first (String a sep) (String a sep +:+ payload))
      with (if startswith (String a sep +:+ payload) (String a sep)
            then Some (EmptyString,
                       drop_chars (String.length (String a sep))
                                  (String a sep +:+ payload))
            else match split_first (String a sep) (sep +:+ payload) with
                 | Some (before, after) => Some (String a before, after)
                 | None => None
                 end).
    now rewrite startswith_app, drop_chars_app.
  - change (split_first sep (String c rid +:+ sep +:+ payload))
      with (if startswith (String c rid +:+ sep +:+ payload) sep
            then Some (EmptyString,
                       drop_chars (String.length sep)
                                  (String c rid +:+ sep +:+ payload))
            else match split_first sep (rid +:+ sep +:+ payload) with
                 | Some (before, after) => Some (String c before, after)
                 | None => None
                 end).
    rewrite (no_early_separator sep rid payload c Hb Ho).
    change (occurs sep (String c rid))
      with (if startswith (String c rid) sep then true else occurs sep rid) in Ho.
    destruct (startswith (String c rid) sep); [discriminate Ho|].
    now rewrite (IH Ho).
Qed.

(** C9.  For a separator without border and a recipient id that does not
    contain it, splitting the key [recipient_id + separator +
    payload_name] at the first separator gives back the recipient id and
    the payload name; so does splitting the key under which [_execute]
    files [x] for a non-empty recipient id. *)
Theorem message_key_round_trip (sep rid payload : string) :
  has_border sep = false ->
  occurs sep rid = false ->
  split_first sep (addressed_key sep rid payload) = Some (rid, payload)
  /\ forall (x : Z) (no_x : PyVal),
       rid <> EmptyString ->
       exists key,
         snd (_execute sep (__init__ (Some rid)) x no_x) !! key = Some x
         /\ split_first sep key = Some (rid, "msg_x").
Proof.
  intros Hb Ho. split; [now apply split_addressed_key|].
  intros x no_x Hne. exists (addressed_key sep rid "msg_x").
  split; [|now apply split_addressed_key].
  rewrite execute_message. simpl.
  destruct rid as [|c rid]; [congruence|]. apply lookup_singleton_eq.
Qed.

Lemma message_key_round_trip_witness :
  split_first "->" (addressed_key "->" "node-1" "msg_x") = Some ("node-1", "msg_x")
  /\ forall (x : Z) (no_x : PyVal),
       "node-1" <> EmptyString ->
       exists key,
         snd (_execute "->" (__init__ (Some "node-1")) x no_x) !! key = Some x
         /\ split_first "->" key = Some ("node-1", "msg_x").
Proof.
  apply (message_key_round_trip "->" "node-1" "msg_x"); reflexivity.
Defined.

(** The round trip with the other arrow, and with a recipient id that
    ends in the first character of the separator. *)
Example round_trip_double_arrow :
  split_first "=>" (addressed_key "=>" "node=" "msg_x") = Some ("node=", "msg_x").
Proof. reflexivity. Qed.

(** Why the separator must have no border: with ["aa"], the recipient
    ["a"] does not contain the separator, and its key splits elsewhere. *)
Example bordered_separator_splits_early :
  occurs "aa" "a" = false
  /\ has_border "aa" = true
  /\ split_first "aa" (addressed_key "aa" "a" "x") = Some (EmptyString, "ax").
Proof. repeat split; reflexivity. Qed.

(** C10.  [_execute] always files the original [x] in the message, which
    holds nothing else: under the addressed key for a non-empty recipient
    id, under ["msg_x"] otherwise, the empty recipient id behaving like
    no recipient id.  The data returned is [None] when [no_x] is true and
    [x] otherwise. *)
Theorem execute_sends_x {X : Type} (sep : string) (self : Self) (x : X) (no_x : PyVal) :
  snd (_execute sep self x no_x) !! message_key sep (_recipient_id self) = Some x
  /\ size (snd (_execute sep self x no_x)) = 1
  /\ fst (_execute sep self x no_x) = (if truthy no_x then None else Some x)
  /\ (forall c s, message_key sep (Some (String c s))
                  = (String c s +:+ sep +:+ "msg_x"))
  /\ message_key sep (Some EmptyString) = "msg_x"
  /\ message_key sep None = "msg_x"
  /\ _execute sep (__init__ (Some EmptyString)) x no_x
     = _execute sep (__init__ None) x no_x.
Proof.
  rewrite execute_message.
  split; [apply lookup_singleton_eq|].
  split; [apply map_size_singleton|].
  repeat split; reflexivity.
Qed.
End SenderResults.

(** ** Concrete runs *)

(** The flow [A, B] translates to [A, B], with one call for each node. *)
Example generic_flow_of_two :
  HiNetTranslator.translate [sample_A; sample_B]
  = (Returns [TNode sample_A; TNode sample_B], [sample_A; sample_B]).
Proof. reflexivity. Qed.

(** A clone layer of three translates to three times the translation of
    its prototype, with one call for the prototype. *)
Example generic_clonelayer_of_three :
  HiNetTranslator.translate [sample_clone]
  = (Returns [TList [TNode sample_A; TNode sample_A; TNode sample_A]],
     [sample_clone; sample_A]).
Proof. reflexivity. Qed.

Example rendered_open_marker :
  render [STag "table" (Some "flow")]
  = "<table class=" +:+ dquote +:+ "flow" +:+ dquote +:+ ">".
Proof. reflexivity. Qed.

Example rendered_dimension :
  render (in_dim_line (-12)) +:+ render (out_dim_line 0)
  = "<tr><td class=" +:+ dquote +:+ "dim" +:+ dquote +:+ ">in-dim: -12</td></tr>"
    +:+ "<tr><td class=" +:+ dquote +:+ "dim" +:+ dquote +:+ ">out-dim: 0".
Proof. reflexivity. Qed.

Example rendered_parameters :
  render (join_br ["noise level: 1"; "noise offset: 0"])
  = "noise level: 1 <br>" +:+ newline +:+ "noise offset: 0".
Proof. reflexivity. Qed.

(** The markers of the flow [A, B], in the order they are written:
    open(flow), open(node) close(node) for [A], the same for [B],
    close(flow); every environment opens two tables and closes two. *)
Example markers_of_two :
  List.filter (fun t => opens "table" t || closes "table" t)
              (tokens (flow_lines [] [sample_A; sample_B]))
  = [STag "table" (Some "flow"); STag "table" (Some "nodestruct");
     STag "table" (Some "node"); STag "table" (Some "nodestruct");
     ETag "table"; ETag "table";
     STag "table" (Some "node"); STag "table" (Some "nodestruct");
     ETag "table"; ETag "table";
     ETag "table"; ETag "table"].
Proof. reflexivity. Qed.

(** A clone layer of three writes the repetition line once and the
    prototype once. *)
Example clonelayer_lines_once :
  count (fun t => match t with
                  | Text s => String.eqb s "3 repetitions"
                  | _ => false
                  end) (tokens (node_lines [] sample_clone)) = 1
  /\ count (fun t => match t with
                     | Text s => String.eqb s "PCANode"
                     | _ => false
                     end) (tokens (node_lines [] sample_clone)) = 1.
Proof. split; reflexivity. Qed.

(** The row and cell tags are another matter than the markers: after its
    rows [_translate_flow] writes one [</td></tr>] more, which
    [_translate_flownode] does not; in the lines of a flow the cells
    closed are one more than the cells opened. *)
Example flow_closes_one_more_cell :
  count (opens "td") (tokens (flow_lines [] [])) = 1
  /\ count (closes "td") (tokens (flow_lines [] [])) = 2
  /\ nesting "td" 0 (tokens (flow_lines [] [])) = None
  /\ nesting "td" 0
       (tokens (node_lines [] (FlowNode {| oid := 4; classes := ["FlowNode"; "Node"];
                                           node_str := "FlowNode"; input_dim := 1;
                                           output_dim := 1 |} []))) = Some 0.
Proof. repeat split; reflexivity. Qed.

(** ** Further properties of the generic translator *)

Section GenericFurther.
Import HiNetTranslator GenericFacts.

(** X1.  [_translate_layer] returns a list as long as the layer's nodes,
    whose i-th element is what [_translate_node] returns for the i-th node:
    every member is translated, in order. *)
Theorem layer_translates_each_member (nodes : list Node) (cs : Calls) :
  exists items : list Translation,
    fst (_translate_layer _translate_node nodes cs) = Returns items
    /\ length items = length nodes
    /\ forall i n (cs' : Calls),
         nth_error nodes i = Some n ->
         exists t, fst (_translate_node n cs') = Returns t
                   /\ nth_error items i = Some t.
Proof.
  exists (map translation_of nodes).
  pose proof (translate_flow_run nodes cs) as Hrun.
  unfold _translate_flow in Hrun. unfold _translate_layer. rewrite Hrun.
  split; [reflexivity|].
  split; [apply length_map|].
  intros i n cs' Hi. exists (translation_of n).
  rewrite translate_node_run. split; [reflexivity|].
  now rewrite nth_error_map, Hi.
Qed.

Lemma concat_repeat_length {A} (l : list A) (c : nat) :
  length (concat (repeat l c)) = c * length l.
Proof.
  induction c as [|c IH]; simpl; [reflexivity|].
  rewrite length_app, IH. reflexivity.
Qed.

Lemma map_repeat_eq {A B} (f : A -> B) (x : A) (c : nat) :
  map f (repeat x c) = repeat (f x) c.
Proof. induction c as [|c IH]; simpl; [reflexivity|now rewrite IH]. Qed.

(** X2.  A CloneLayer is translated to the value that the Layer path gives
    for its [nodes], but with the calls of one traversal of the prototype
    instead of [count] traversals. *)
Theorem clonelayer_is_layer_with_one_traversal (a : Attrs) (p : Node) (count : nat)
    (cs : Calls) :
  let once := length (snd (_translate_node p [])) in
  fst (_translate_node (CloneLayer a p count) cs)
  = fst (_translate_node (Layer a (clone_nodes p count)) cs)
  /\ length (snd (_translate_node (CloneLayer a p count) cs))
     = length cs + 1 + once
  /\ length (snd (_translate_node (Layer a (clone_nodes p count)) cs))
     = length cs + 1 + count * once.
Proof.
  intros once. subst once. rewrite !translate_node_run. simpl fst. simpl snd.
  unfold clone_nodes. split.
  { simpl. now rewrite map_repeat_eq. }
  split.
  - rewrite !length_app. simpl. lia.
  - rewrite !length_app. simpl. rewrite map_repeat_eq, concat_repeat_length. lia.
Qed.

End GenericFurther.


(** ** Further properties of the HTML translator *)

Section HTMLFurther.
Import HiNetHTMLTranslator HTMLFacts MarkerFacts.

Lemma document_lines (reg : registry) (flow : Flow) :
  document reg flow = map line (flow_lines reg flow).
Proof. unfold document. now rewrite written_by_write_flow. Qed.

Lemma registry_after_write_flow (flow : Flow) (html_file : fd) (w : State) :
  _node_param_translators (snd (write_flow_to_file flow html_file w))
  = _node_param_translators w.
Proof.
  rewrite write_flow_run. cbn [snd set_html_file _node_param_translators].
  now rewrite emit_registry.
Qed.

(** X3.  Without a bound file, as after [__init__], translating a node or
    a flow directly raises AttributeError at the first write, and nothing
    is written: the state is unchanged. *)
Theorem unbound_translation_raises (node : Node) (flow : Flow) (w : State) :
  _html_file w = None ->
  _translate_node node w = (Raises (AttributeError "write"), w)
  /\ _translate_flow _translate_node flow w = (Raises (AttributeError "write"), w).
Proof.
  intros Hnone. split.
  - destruct node; simpl;
      unfold _translate_standard_node, _translate_flownode, _translate_layer,
             _translate_clonelayer, _open_node_env, get_html_file, bind, get, ret;
      simpl; rewrite Hnone; reflexivity.
  - unfold _translate_flow, _open_node_env, get_html_file, bind, get, ret.
    simpl. rewrite Hnone. reflexivity.
Qed.

Lemma unbound_translation_raises_witness :
  let w := __init__ [] ∅ in
  _translate_node sample_clone w = (Raises (AttributeError "write"), w)
  /\ _translate_flow _translate_node [sample_A; sample_B] w
     = (Raises (AttributeError "write"), w).
Proof.
  intros w. apply (unbound_translation_raises sample_clone [sample_A; sample_B] w).
  reflexivity.
Defined.

(** X4.  What a call writes is the document of the flow under the
    translator's registry, whatever the file and the state; the file keeps
    what it held, the registry is not changed and the translator ends
    unbound, so that it can be used again: two calls in a row append the
    two documents one after the other. *)
Theorem successive_calls_append_documents (flow1 flow2 : Flow) (html_file : fd)
    (w : State) :
  exists w1 w2 : State,
    write_flow_to_file flow1 html_file w = (Returns tt, w1)
    /\ write_flow_to_file flow2 html_file w1 = (Returns tt, w2)
    /\ files w1 !!! html_file
       = files w !!! html_file ++ document (_node_param_translators w) flow1
    /\ files w2 !!! html_file
       = files w !!! html_file ++ document (_node_param_translators w) flow1
         ++ document (_node_param_translators w) flow2
    /\ _node_param_translators w2 = _node_param_translators w
    /\ _html_file w2 = None.
Proof.
  exists (snd (write_flow_to_file flow1 html_file w)).
  exists (snd (write_flow_to_file flow2 html_file
                 (snd (write_flow_to_file flow1 html_file w)))).
  split; [now rewrite write_flow_run|].
  split; [now rewrite (write_flow_run flow2)|].
  split; [now rewrite written_by_write_flow, document_lines|].
  split.
  { rewrite (written_by_write_flow flow2), registry_after_write_flow.
    now rewrite written_by_write_flow, !document_lines, app_assoc. }
  split; [now rewrite !registry_after_write_flow|].
  now rewrite (write_flow_run flow2).
Qed.

(** X5.  Every write call the file receives ends with the newline that
    NewlineWriteFile adds; the first one is the opening of the flow table
    and the last one the closing of a table. *)
Theorem document_is_made_of_lines (reg : registry) (flow : Flow) :
  Forall (fun record => exists text, record = text ++ [Text newline])
         (document reg flow)
  /\ head (document reg flow) = Some ([STag "table" (Some "flow")] ++ [Text newline])
  /\ last (document reg flow) = Some ([ETag "table"] ++ [Text newline]).
Proof.
  rewrite document_lines. split.
  { apply Forall_forall. intros record Hin. apply list_elem_of_In in Hin.
    apply in_map_iff in Hin as (text & <- & _). now exists text. }
  split; [reflexivity|].
  unfold flow_lines.
  change (close_env_lines None)
    with ([[ETag "table"]; td_tr_end] ++ [[ETag "table"]]).
  rewrite !app_assoc, map_app. apply last_snoc.
Qed.

Lemma join_br_count (lines : list string) :
  count is_nodestruct (join_br lines ++ [Text newline]) = 0.
Proof.
  induction lines as [|l lines IH]; [reflexivity|].
  destruct lines as [|l' lines]; [reflexivity|].
  change (join_br (l :: l' :: lines))
    with (Text l :: Text " " :: Br :: Text newline :: join_br (l' :: lines)).
  simpl. exact IH.
Qed.

Lemma detail_count reg node :
  count is_nodestruct (tokens (detail_lines reg node)) = 0.
Proof.
  unfold detail_lines. destruct (matching_entry reg node) as [e|]; [|reflexivity].
  unfold tokens. simpl. rewrite app_nil_r. apply join_br_count.
Qed.

Lemma members_count reg (pre post : list html) (xs : list Node) :
  count is_nodestruct (tokens pre) = 0 ->
  count is_nodestruct (tokens post) = 0 ->
  Forall (fun x => count is_nodestruct (tokens (node_lines reg x))
                   = length (visits x)) xs ->
  count is_nodestruct
    (tokens (concat (map (fun x => pre ++ node_lines reg x ++ post) xs)))
  = length (concat (map visits xs)).
Proof.
  intros Hpre Hpost H. induction H as [|x xs Hx _ IH]; [reflexivity|].
  simpl. rewrite !tokens_app, !count_app, length_app, Hpre, Hpost, Hx, IH. lia.
Qed.

Lemma open_env_count dim type_id :
  type_id <> "nodestruct" ->
  count is_nodestruct (tokens (open_env_lines dim type_id)) = 1.
Proof.
  intros Hne. apply String.eqb_neq in Hne.
  destruct dim; unfold tokens; simpl; rewrite Hne; reflexivity.
Qed.

Lemma close_env_count dim : count is_nodestruct (tokens (close_env_lines dim)) = 0.
Proof. destruct dim; reflexivity. Qed.

Lemma standard_count reg node :
  count is_nodestruct (tokens (standard_lines reg node)) = 1.
Proof.
  unfold standard_lines, standard_block.
  rewrite !tokens_app, !count_app, open_env_count, detail_count, close_env_count
    by discriminate.
  reflexivity.
Qed.

(** The nodestruct tables among the lines of a node are as many as the
    calls of the generic traversal of that node. *)
Lemma node_count reg (n : Node) :
  count is_nodestruct (tokens (node_lines reg n)) = length (visits n).
Proof.
  induction n as [a|a fl IH|a ns IH|a p c IH|a] using Node_nested_ind.
  - apply standard_count.
  - cbn [node_lines visits].
    rewrite !tokens_app, !count_app, open_env_count, close_env_count by discriminate.
    pose proof (members_count reg [tr_td] [td_tr_end] fl eq_refl eq_refl IH) as Hm.
    unfold html in *. rewrite Hm. simpl. lia.
  - cbn [node_lines visits].
    rewrite !tokens_app, !count_app, open_env_count, close_env_count by discriminate.
    pose proof (members_count reg [[STag "td" None]] [[ETag "td"]] ns
                  eq_refl eq_refl IH) as Hm.
    unfold html in *. rewrite Hm. simpl. lia.
  - cbn [node_lines visits].
    rewrite !tokens_app, !count_app, open_env_count, close_env_count, IH
      by discriminate.
    simpl. lia.
  - apply standard_count.
Qed.

(** X6.  The document has one environment for the flow and one for each
    call that the generic translator makes to [_translate_node] on the same
    flow: every node of the traversal gets exactly one, the prototype of a
    clone layer like any other node. *)
Theorem one_environment_per_call (reg : registry) (flow : Flow) :
  count is_nodestruct (concat (document reg flow))
  = 1 + length (snd (HiNetTranslator.translate flow)).
Proof.
  rewrite document_lines. fold (tokens (flow_lines reg flow)).
  unfold HiNetTranslator.translate. rewrite GenericFacts.translate_flow_run.
  cbn [snd app]. unfold flow_lines.
  rewrite !tokens_app, !count_app, open_env_count, close_env_count by discriminate.
  assert (Forall (fun x => count is_nodestruct (tokens (node_lines reg x))
                           = length (visits x)) flow) as Hall
    by (apply Forall_forall; intros x _; apply node_count).
  pose proof (members_count reg [tr_td] [td_tr_end] flow eq_refl eq_refl Hall) as Hm.
  unfold html in *. rewrite Hm. simpl. lia.
Qed.



End HTMLFurther.

(** ** Rows and cells *)

Section RowsAndCells.
Import HiNetHTMLTranslator HTMLFacts.

Lemma join_br_neutral_any (tag : string) (lines : list string) :
  neutral tag (join_br lines ++ [Text newline]).
Proof.
  induction lines as [|l lines IH]; intros d; [reflexivity|].
  destruct lines as [|l' lines]; [reflexivity|].
  change (join_br (l :: l' :: lines))
    with (Text l :: Text " " :: Br :: Text newline :: join_br (l' :: lines)).
  simpl. apply IH.
Qed.

Lemma detail_neutral_any (tag : string) reg node :
  neutral tag (tokens (detail_lines reg node)).
Proof.
  unfold detail_lines. destruct (matching_entry reg node) as [e|].
  - unfold tokens. simpl. rewrite app_nil_r. apply join_br_neutral_any.
  - apply neutral_nil.
Qed.

(** Members that are each neutral between [pre] and [post]. *)
Lemma wrapped_members_neutral (tag : string) reg (pre post : list html)
    (xs : list Node) :
  Forall (fun x => neutral tag (tokens (pre ++ node_lines reg x ++ post))) xs ->
  neutral tag (tokens (concat (map (fun x => pre ++ node_lines reg x ++ post) xs))).
Proof.
  intros H. rewrite tokens_concat. apply neutral_concat.
  induction H as [|x xs Hx _ IH]; simpl; constructor; assumption.
Qed.

Section OneTag.
Variable tag : string.
Hypothesis Htag : tag = "tr" \/ tag = "td".
Variable reg : registry.

Ltac by_tag := intros ?; destruct Htag; subst tag; reflexivity.

Lemma open_env_rows dim type_id : lifts tag 0 1 (tokens (open_env_lines dim type_id)).
Proof. destruct dim; by_tag. Qed.

Lemma close_env_rows dim : lifts tag 1 0 (tokens (close_env_lines dim)).
Proof. destruct dim; by_tag. Qed.

Lemma row_neutral (x : Node) :
  neutral tag (tokens (node_lines reg x)) ->
  neutral tag (tokens ([tr_td] ++ node_lines reg x ++ [td_tr_end])).
Proof.
  intros Hx. apply lifts_neutral. rewrite !tokens_app.
  eapply (lifts_app _ 0 1); [by_tag|].
  eapply (lifts_app _ 1 1); [apply neutral_lifts, Hx|by_tag].
Qed.

Lemma standard_rows node : neutral tag (tokens (standard_lines reg node)).
Proof.
  apply lifts_neutral. unfold standard_lines, standard_block.
  rewrite !tokens_app.
  eapply (lifts_app _ 0 1); [apply open_env_rows|].
  eapply (lifts_app _ 1 2); [by_tag|].
  eapply (lifts_app _ 2 2); [apply neutral_lifts, detail_neutral_any|].
  eapply (lifts_app _ 2 1); [by_tag|].
  apply close_env_rows.
Qed.

Lemma layer_rows a ns :
  Forall (fun x => neutral tag (tokens (node_lines reg x))) ns ->
  neutral tag (tokens (node_lines reg (Layer a ns))).
Proof.
  intros IH. apply lifts_neutral. cbn [node_lines]. rewrite !tokens_app.
  eapply (lifts_app _ 0 1); [apply open_env_rows|].
  assert (Forall (fun x => neutral tag (tokens ([[STag "td" None]] ++ node_lines reg x
                                                ++ [[ETag "td"]]))) ns) as Hcells.
  { eapply Forall_impl; [exact IH|]. intros x Hx. cbv beta.
    apply lifts_neutral. rewrite !tokens_app.
    destruct Htag; subst tag.
    - eapply (lifts_app _ 0 0); [intros ?; reflexivity|].
      eapply (lifts_app _ 0 0); [apply neutral_lifts, Hx|intros ?; reflexivity].
    - eapply (lifts_app _ 0 1); [intros ?; reflexivity|].
      eapply (lifts_app _ 1 1); [apply neutral_lifts, Hx|intros ?; reflexivity]. }
  apply wrapped_members_neutral in Hcells.
  destruct Htag; subst tag.
  - eapply (lifts_app _ 1 2); [intros ?; reflexivity|].
    eapply (lifts_app _ 2 2); [apply neutral_lifts, Hcells|].
    eapply (lifts_app _ 2 1); [intros ?; reflexivity|].
    destruct (output_dim a); intros ?; reflexivity.
  - eapply (lifts_app _ 1 1); [intros ?; reflexivity|].
    eapply (lifts_app _ 1 1); [apply neutral_lifts, Hcells|].
    eapply (lifts_app _ 1 1); [intros ?; reflexivity|].
    destruct (output_dim a); intros ?; reflexivity.
Qed.

(** The rows and the cells of a node's lines nest. *)
Lemma node_rows (n : Node) : neutral tag (tokens (node_lines reg n)).
Proof.
  induction n as [a|a fl IH|a ns IH|a p c IH|a] using Node_nested_ind.
  - apply standard_rows.
  - apply lifts_neutral. cbn [node_lines]. rewrite !tokens_app.
    eapply (lifts_app _ 0 1); [apply open_env_rows|].
    eapply (lifts_app _ 1 1); [|apply close_env_rows].
    apply neutral_lifts, wrapped_members_neutral.
    eapply Forall_impl; [exact IH|]. intros x Hx. now apply row_neutral.
  - now apply layer_rows.
  - apply lifts_neutral. cbn [node_lines]. rewrite !tokens_app.
    eapply (lifts_app _ 0 1); [apply open_env_rows|].
    eapply (lifts_app _ 1 2); [by_tag|].
    eapply (lifts_app _ 2 2); [apply neutral_lifts, IH|].
    eapply (lifts_app _ 2 1); [by_tag|].
    apply close_env_rows.
  - apply standard_rows.
Qed.

(** The lines of a flow up to its own closing environment. *)
Lemma flow_rows_before_close (flow : Flow) :
  neutral tag
    (tokens (open_env_lines None "flow"
             ++ concat (map (fun x => [tr_td] ++ node_lines reg x ++ [td_tr_end]) flow)
             ++ [td_tr_end])).
Proof.
  apply lifts_neutral. rewrite !tokens_app.
  eapply (lifts_app _ 0 1); [apply open_env_rows|].
  eapply (lifts_app _ 1 1); [|by_tag].
  apply neutral_lifts, wrapped_members_neutral.
  apply Forall_forall. intros x _. apply row_neutral, node_rows.
Qed.
End OneTag.

End RowsAndCells.

Section TagResults.
Import HiNetHTMLTranslator HTMLFacts MarkerFacts.

Lemma node_tag_neutral (tag : string) reg (n : Node) :
  In tag ["table"; "tr"; "td"] -> neutral tag (tokens (node_lines reg n)).
Proof.
  intros [<-|[<-|[<-|[]]]].
  - apply node_neutral.
  - apply node_rows. now left.
  - apply node_rows. now right.
Qed.

(** X8.  What the translation of a single node writes is well nested for
    each of the three tags: tables, rows and cells.  Read from depth 0 the
    written tokens never close a tag that is not open, and end at depth 0;
    so for each tag the tags opened are as many as the tags closed. *)
Theorem node_tags_are_nested (nwf : NewlineWriteFile) (node : Node) (w : State)
    (tag : string) :
  _html_file w = Some nwf ->
  In tag ["table"; "tr"; "td"] ->
  exists out : list html,
    fst (_translate_node node w) = Returns tt
    /\ files (snd (_translate_node node w)) !!! file_obj nwf
       = files w !!! file_obj nwf ++ out
    /\ nesting tag 0 (concat out) = Some 0
    /\ count (opens tag) (concat out) = count (closes tag) (concat out).
Proof.
  intros Hf Htag.
  exists (map line (node_lines (_node_param_translators w) node)).
  rewrite (translate_node_writes nwf _ node w Hf eq_refl).
  split; [reflexivity|]. split; [apply emit_written|].
  pose proof (node_tag_neutral tag (_node_param_translators w) node Htag 0) as Hn.
  unfold tokens in Hn. split; [exact Hn|].
  apply (nesting_counts _ _ _ _ Hn).
Qed.

Lemma node_tags_are_nested_witness :
  let nwf := {| file_obj := 0 |} in
  let w := {| _node_param_translators := []; _html_file := Some nwf; files := ∅ |} in
  exists out : list html,
    fst (_translate_node sample_clone w) = Returns tt
    /\ files (snd (_translate_node sample_clone w)) !!! file_obj nwf
       = files w !!! file_obj nwf ++ out
    /\ nesting "td" 0 (concat out) = Some 0
    /\ count (opens "td") (concat out) = count (closes "td") (concat out).
Proof.
  intros nwf w. apply (node_tags_are_nested nwf sample_clone w "td").
  - reflexivity.
  - right. right. left. reflexivity.
Defined.

Lemma flow_row_end (tag : string) reg (flow : Flow) :
  tag = "tr" \/ tag = "td" ->
  nesting tag 0 (concat (document reg flow)) = None
  /\ count (closes tag) (concat (document reg flow))
     = count (opens tag) (concat (document reg flow)) + 1.
Proof.
  intros Htag. rewrite document_lines. fold (tokens (flow_lines reg flow)).
  pose proof (flow_rows_before_close tag Htag reg flow 0) as Hpre.
  unfold flow_lines.
  rewrite !app_assoc, tokens_app, <- !app_assoc. split.
  - rewrite nesting_app, Hpre. destruct Htag; subst tag; reflexivity.
  - apply nesting_counts in Hpre. rewrite !count_app.
    destruct Htag; subst tag; simpl in *; lia.
Qed.

(** X9.  The document of a flow is not nested in its rows and cells: read
    from depth 0 it closes a row, and a cell, that is not open, and it
    closes one row and one cell more than it opens.  This is the
    [</td></tr>] that [_translate_flow] writes after its rows. *)
Theorem flow_closes_one_row_too_many (reg : registry) (flow : Flow) :
  nesting "tr" 0 (concat (document reg flow)) = None
  /\ nesting "td" 0 (concat (document reg flow)) = None
  /\ count (closes "tr") (concat (document reg flow))
     = count (opens "tr") (concat (document reg flow)) + 1
  /\ count (closes "td") (concat (document reg flow))
     = count (opens "td") (concat (document reg flow)) + 1.
Proof.
  destruct (flow_row_end "tr" reg flow (or_introl eq_refl)) as [Hr Hrc].
  destruct (flow_row_end "td" reg flow (or_intror eq_refl)) as [Hd Hdc].
  repeat split; assumption.
Qed.




End TagResults.

(** ** Further properties of the sender node *)

Section SenderFurther.
Import SenderBiNode.

(** X11.  With a recipient id the message holds the addressed key only:
    the bare key ["msg_x"] is absent, and any key found in the message is
    the addressed one and carries [x]. *)
Theorem addressed_message_has_no_bare_key {X : Type} (sep rid : string) (x : X)
    (no_x : PyVal) :
  rid <> EmptyString ->
  snd (_execute sep (__init__ (Some rid)) x no_x) !! "msg_x" = None
  /\ forall (k : string) (v : X),
       snd (_execute sep (__init__ (Some rid)) x no_x) !! k = Some v ->
       k = addressed_key sep rid "msg_x" /\ v = x.
Proof.
  intros Hne. rewrite execute_message.
  destruct rid as [|c rid]; [congruence|]. cbn [__init__ _recipient_id message_key].
  split.
  - apply lookup_singleton_ne. intros Heq.
    apply (f_equal String.length) in Heq. unfold addressed_key in Heq.
    rewrite !length_append in Heq. simpl in Heq. lia.
  - intros k v Hk. apply lookup_singleton_Some in Hk as [<- <-]. now split.
Qed.

Lemma addressed_message_has_no_bare_key_witness :
  snd (_execute "->" (__init__ (Some "node-1")) 5%Z PyNone) !! "msg_x" = None
  /\ forall (k : string) (v : Z),
       snd (_execute "->" (__init__ (Some "node-1")) 5%Z PyNone) !! k = Some v ->
       k = addressed_key "->" "node-1" "msg_x" /\ v = 5%Z.
Proof.
  apply (addressed_message_has_no_bare_key "->" "node-1" 5%Z PyNone). discriminate.
Defined.

(** X12.  Addressed keys do not collide: for a separator without border
    and recipient ids that do not contain it, two keys are equal only if
    both the recipient ids and the payload names are. *)
Theorem addressed_keys_are_distinct (sep r1 p1 r2 p2 : string) :
  has_border sep = false ->
  occurs sep r1 = false ->
  occurs sep r2 = false ->
  addressed_key sep r1 p1 = addressed_key sep r2 p2 ->
  r1 = r2 /\ p1 = p2.
Proof.
  intros Hb H1 H2 Heq.
  pose proof (split_addressed_key sep r1 p1 Hb H1) as S1.
  pose proof (split_addressed_key sep r2 p2 Hb H2) as S2.
  rewrite Heq, S2 in S1. injection S1 as -> ->. now split.
Qed.

Lemma addressed_keys_are_distinct_witness :
  "a" = "a" /\ "msg_x" = "msg_x".
Proof.
  apply (addressed_keys_are_distinct "->" "a" "msg_x" "a" "msg_x"); reflexivity.
Defined.

End SenderFurther.

(** ** The registry is one list object *)

Section RegistryFurther.
Import RegistryStore.



End RegistryFurther.
